(** * Verification of the ProLoaF training core

    The development embeds three parts of the repository and proves the
    properties stated about them:

    - [utils/tensorloader.py]: the windowed dataset, the drop-last batch
      iterator and [make_dataloader];
    - [utils/metrics.py]: the scoring functions (Gaussian NLL, pinball loss,
      CRPS, MSE, RMSE, PICP);
    - [source/train.py]: the epoch loop with early stopping and the
      model-improvement decision of the run controller.

    Python calls that may raise are functions into [Py.result]; objects that
    the code mutates are records passed from state to state.  Tensor entries
    and scores are exact numbers (reals in the scoring library, where [exp]
    and [sqrt] occur; rationals in the control logic, where scores are only
    added and compared): rounding and NaN of the floating-point backend are
    outside the model, and the one infinity the code uses, [np.inf] as the
    initial best score, is a value of its own. *)

From Stdlib Require Import Reals Lra Lia QArith.
From Stdlib Require Lqa.
From stdpp Require Import gmap strings list fin_maps.

(** * Outcomes of Python calls *)

Module Py.

Inductive exn : Set :=
| NotImplementedError
| AssertionError
| ValueError
| IndexError
| KeyError
| NameError
| TypeError
| ZeroDivisionError
| AttributeError
| RuntimeError
| FileNotFoundError
| KeyboardInterrupt
| StopIteration
| UnboundLocalError.

Inductive result (A : Type) : Type :=
| Ok (a : A)
| Raise (e : exn).

Arguments Ok {A} a.
Arguments Raise {A} e.

Definition bind {A B : Type} (k : A -> result B) (r : result A) : result B :=
  match r with
  | Ok a => k a
  | Raise e => Raise e
  end.

Definition rmap {A B : Type} (f : A -> B) (r : result A) : result B :=
  match r with
  | Ok a => Ok (f a)
  | Raise e => Raise e
  end.

Definition returned {A : Type} (r : result A) : bool :=
  match r with
  | Ok _ => true
  | Raise _ => false
  end.

(** [assert c] *)
Definition assert (c : bool) : result unit :=
  if c then Ok tt else Raise AssertionError.

(** [a // b] on non-negative integers. *)
Definition floordiv (a b : nat) : result nat :=
  if (b =? 0)%nat then Raise ZeroDivisionError else Ok (a / b)%nat.

(** [l[i]] on a Python list. *)
Definition getitem {A : Type} (l : list A) (i : nat) : result A :=
  match l !! i with
  | Some a => Ok a
  | None => Raise IndexError
  end.

End Py.

#[global] Instance result_ret : MRet Py.result := @Py.Ok.
#[global] Instance result_bind : MBind Py.result := @Py.bind.
#[global] Instance result_fmap : FMap Py.result := @Py.rmap.

(** * The batch iterator of [utils/tensorloader.py] *)

Module TensorLoader.
Import Py.

(** [CustomTensorData]: three stacked tensors; a tensor is the list of its
    windows along the leading dimension, [W] is the type of one window. *)
Record CustomTensorData (W : Type) : Type := mkData {
  inputs1 : list W;
  inputs2 : list W;
  targets : list W
}.
Arguments mkData {W} _ _ _.
Arguments inputs1 {W} _.
Arguments inputs2 {W} _.
Arguments targets {W} _.

(** A batch is what [dataset[indices]] returns. *)
Definition batch (W : Type) : Type := (list W * list W * list W)%type.

(** [CustomTensorData.__len__] *)
Definition data_len {W} (d : CustomTensorData W) : nat := length (targets d).

(** [tensor[indices, :, :]] for an integer array [indices]. *)
Fixpoint index_select {W} (t : list W) (indices : list nat) : result (list W) :=
  match indices with
  | [] => Ok []
  | i :: rest =>
      w ← getitem t i;
      ws ← index_select t rest;
      Ok (w :: ws)
  end.

(** [CustomTensorData.__getitem__] *)
Definition data_getitem {W} (d : CustomTensorData W) (indices : list nat)
  : result (batch W) :=
  a ← index_select (inputs1 d) indices;
  b ← index_select (inputs2 d) indices;
  c ← index_select (targets d) indices;
  Ok (a, b, c).

(** [CustomTensorDataLoader]; [permutation] and [batch_index] are the
    attributes that only [__iter__] creates.  The batch size is a count; a
    batch size of zero makes [__len__] raise [ZeroDivisionError]. *)
Record CustomTensorDataLoader (W : Type) : Type := mkLoader {
  dataset : CustomTensorData W;
  batch_size : nat;
  shuffle : bool;
  drop_last : bool;
  permutation : option (list (list nat));
  batch_index : option nat
}.
Arguments mkLoader {W} _ _ _ _ _ _.
Arguments dataset {W} _.
Arguments batch_size {W} _.
Arguments shuffle {W} _.
Arguments drop_last {W} _.
Arguments permutation {W} _.
Arguments batch_index {W} _.

(** [CustomTensorDataLoader.__init__] *)
Definition init {W} (d : CustomTensorData W) (bs : nat) (shuf dl : bool)
  : result (CustomTensorDataLoader W) :=
  if negb dl then Raise NotImplementedError
  else Ok (mkLoader d bs shuf dl None None).

(** [CustomTensorDataLoader.__len__] *)
Definition len {W} (ld : CustomTensorDataLoader W) : result nat :=
  floordiv (data_len (dataset ld)) (batch_size ld).

(** Rows of a flat array cut into [rows] consecutive pieces of [cols]. *)
Fixpoint rows_of (rows cols : nat) (flat : list nat) : list (list nat) :=
  match rows with
  | O => []
  | S r => take cols flat :: rows_of r cols (drop cols flat)
  end.

(** [np.reshape(flat, (rows, cols))] *)
Definition np_reshape (flat : list nat) (rows cols : nat)
  : result (list (list nat)) :=
  if (length flat =? rows * cols)%nat then Ok (rows_of rows cols flat)
  else Raise ValueError.

(** [CustomTensorDataLoader.__iter__]; [draw] is the array returned by
    [np.random.permutation(len(self.dataset))], read only when shuffling. *)
Definition iter {W} (draw : list nat) (ld : CustomTensorDataLoader W)
  : result (CustomTensorDataLoader W) :=
  q ← floordiv (data_len (dataset ld)) (batch_size ld);
  let n := (batch_size ld * q)%nat in
  let perm := if shuffle ld then take n draw else seq 0 n in
  l ← len ld;
  p ← np_reshape perm l (batch_size ld);
  Ok (mkLoader (dataset ld) (batch_size ld) (shuffle ld) (drop_last ld)
        (Some p) (Some 0%nat)).

(** [CustomTensorDataLoader.__next__]: the loader after the call and what
    the call returns or raises. *)
Definition next {W} (ld : CustomTensorDataLoader W)
  : CustomTensorDataLoader W * result (batch W) :=
  match batch_index ld, permutation ld with
  | Some bi, Some p =>
      match len ld with
      | Raise e => (ld, Raise e)
      | Ok l =>
          if (bi <? l)%nat then
            match getitem p bi with
            | Raise e => (ld, Raise e)
            | Ok indices =>
                (mkLoader (dataset ld) (batch_size ld) (shuffle ld)
                   (drop_last ld) (Some p) (Some (S bi)),
                 data_getitem (dataset ld) indices)
            end
          else (ld, Raise StopIteration)
      end
  | _, _ => (ld, Raise AttributeError)
  end.

(** The body of [for batch in loader]: call [next] until [StopIteration];
    [None] when [fuel] calls were not enough. *)
Fixpoint drain {W} (fuel : nat) (ld : CustomTensorDataLoader W)
  : option (CustomTensorDataLoader W * result (list (batch W))) :=
  match fuel with
  | O => None
  | S fuel' =>
      match next ld with
      | (ld', Raise StopIteration) => Some (ld', Ok [])
      | (ld', Raise e) => Some (ld', Raise e)
      | (ld', Ok b) =>
          match drain fuel' ld' with
          | Some (ld'', Ok bs) => Some (ld'', Ok (b :: bs))
          | other => other
          end
      end
  end.

(** One iteration pass, [for batch in loader], collecting the batches. *)
Definition iterate_pass {W} (draw : list nat) (ld : CustomTensorDataLoader W)
  : option (CustomTensorDataLoader W * result (list (batch W))) :=
  match iter draw ld with
  | Raise e => Some (ld, Raise e)
  | Ok ld' => drain (S (data_len (dataset ld))) ld'
  end.

(** The flat index sequence that [__iter__] reshapes: the first [n] entries
    of the drawn permutation, or [0 .. n-1] in time order. *)
Definition flat_schedule (sh : bool) (n : nat) (draw : list nat) : list nat :=
  if sh then take n draw else seq 0 n.

(** The leading dimensions of a batch. *)
Definition batch_dims {W} (b : batch W) : nat * nat * nat :=
  (length b.1.1, length b.1.2, length b.2).

(** The invariant of a windowed dataset: one leading dimension. *)
Definition aligned {W} (d : CustomTensorData W) : Prop :=
  length (inputs1 d) = length (targets d) /\
  length (inputs2 d) = length (targets d).

End TensorLoader.

(** * [make_dataloader] of [utils/tensorloader.py] *)

Module MakeLoader.
Import Py TensorLoader.

(** A pandas data frame: column names and time-ordered rows, the values of a
    row listed in column order. *)
Record DataFrame (V : Type) : Type := mkFrame {
  columns : list string;
  rows : list (list V)
}.
Arguments mkFrame {V} _ _.
Arguments columns {V} _.
Arguments rows {V} _.

(** Position of a column name, [KeyError] when the frame has no such column. *)
Fixpoint column_index (cols : list string) (c : string) : result nat :=
  match cols with
  | [] => Raise KeyError
  | c' :: rest =>
      if decide (c' = c) then Ok 0%nat
      else i ← column_index rest c; Ok (S i)
  end.

Fixpoint column_indices (cols : list string) (wanted : list string)
  : result (list nat) :=
  match wanted with
  | [] => Ok []
  | c :: rest =>
      i ← column_index cols c;
      ixs ← column_indices cols rest;
      Ok (i :: ixs)
  end.

(** [df[wanted]] for a list of column names. *)
Definition select {V} (df : DataFrame V) (wanted : list string)
  : result (DataFrame V) :=
  ixs ← column_indices (columns df) wanted;
  Ok (mkFrame wanted (map (fun r => omap (fun i => r !! i) ixs) (rows df))).

(** [df.iloc[:-k, :]]; [-0] is [0], so [k = 0] keeps no row. *)
Definition iloc_until_minus {V} (k : nat) (df : DataFrame V) : DataFrame V :=
  mkFrame (columns df)
    (if (k =? 0)%nat then [] else take (length (rows df) - k) (rows df)).

(** [df.iloc[k:, :]] *)
Definition iloc_from {V} (k : nat) (df : DataFrame V) : DataFrame V :=
  mkFrame (columns df) (drop k (rows df)).

(** [a[:-1]] on the leading dimension. *)
Definition drop_tail {A} (a : list A) : list A := take (length a - 1) a.

(** [a[1:]] on the leading dimension. *)
Definition drop_head {A} (a : list A) : list A := drop 1 a.

(** The type of [dt.extract]: a frame and a horizon give the stacked windows,
    each window a block of rows. *)
Definition extractor (V : Type) : Type :=
  DataFrame V -> nat -> list (list (list V)).

(** Modelled from the spec: [dt.extract] of [plf_util/datatuner.py] is not
    part of the sources.  The specification describes windows of [horizon]
    consecutive rows, one per start row, [T - horizon + 1] of them for [T]
    rows. *)
Definition sliding_windows {V} : extractor V :=
  fun df horizon =>
    map (fun i => take horizon (drop i (rows df)))
      (seq 0 (length (rows df) + 1 - horizon)).

(** The three [dt.extract] calls of [make_dataloader]. *)
Definition extract_series {V} (extract : extractor V) (df : DataFrame V)
    (target_id : string) (encoder_features decoder_features : list string)
    (history_horizon forecast_horizon : nat)
  : result (list (list (list V)) * list (list (list V)) * list (list (list V))) :=
  e ← select df encoder_features;
  let x_enc := extract (iloc_until_minus forecast_horizon e) history_horizon in
  d ← select df decoder_features;
  let x_dec := extract (iloc_from history_horizon d) forecast_horizon in
  t ← select df [target_id];
  let y := extract (iloc_from history_horizon t) forecast_horizon in
  Ok (x_enc, x_dec, y).

(** The [if len(x_enc) > len(y) ... elif len(x_enc) < len(y) ...] step. *)
Definition align {A} (x_enc x_dec y : list A) : list A * list A * list A :=
  if (length y <? length x_enc)%nat then (drop_tail x_enc, x_dec, y)
  else if (length x_enc <? length y)%nat then (x_enc, drop_head x_dec, drop_head y)
  else (x_enc, x_dec, y).

(** [make_dataloader] *)
Definition make_dataloader {V} (extract : extractor V) (df : DataFrame V)
    (target_id : string) (encoder_features decoder_features : list string)
    (history_horizon forecast_horizon : nat)
    (batch_size : nat) (shuffle drop_last : bool)
  : result (CustomTensorDataLoader (list (list V))) :=
  s ← extract_series extract df target_id encoder_features decoder_features
        history_horizon forecast_horizon;
  let '(x_enc, x_dec, y) := s in
  let '(x_enc', x_dec', y') := align x_enc x_dec y in
  init (mkData x_enc' x_dec' y') batch_size shuffle drop_last.

(** A frame of six hourly rows with a load and a temperature column. *)
Definition sample_frame : DataFrame nat :=
  mkFrame ["load"; "temp"]
    [[1; 10]; [2; 20]; [3; 30]; [4; 40]; [5; 50]; [6; 60]].

(** An extractor whose number of windows depends on the width of the frame:
    two windows for frames of two columns, one window otherwise. *)
Definition long_encoder_extract : extractor nat :=
  fun df horizon =>
    take (if (length (columns df) =? 2)%nat then 2 else 1)
      (sliding_windows df horizon).

(** The frame of the end-to-end scenario: 200 rows, one encoder and one
    decoder feature. *)
Definition scenario_frame : DataFrame nat :=
  mkFrame ["load"; "temp"]
    (map (fun i => [(i mod 7)%nat; (i mod 3)%nat]) (seq 0 200)).

End MakeLoader.

(** * The scoring functions of [utils/metrics.py] *)

Module Metrics.
Import Py.
Local Open Scope R_scope.

(** A tensor of shape [[dim0, dim1, dim2]] (batch, horizon, target
    variables) with its entries; entries outside the shape are never read. *)
Record tensor (A : Type) : Type := mkTensor {
  dim0 : nat;
  dim1 : nat;
  dim2 : nat;
  entry : nat -> nat -> nat -> A
}.
Arguments mkTensor {A} _ _ _ _.
Arguments dim0 {A} _.
Arguments dim1 {A} _.
Arguments dim2 {A} _.
Arguments entry {A} _ _ _ _.

(** [t.shape] *)
Definition shape {A} (t : tensor A) : nat * nat * nat :=
  (dim0 t, dim1 t, dim2 t).

(** [a.shape == b.shape] *)
Definition same_shape {A B} (a : tensor A) (b : tensor B) : bool :=
  bool_decide (shape a = shape b).

(** A unary elementwise operation. *)
Definition tmap {A B} (f : A -> B) (t : tensor A) : tensor B :=
  mkTensor (dim0 t) (dim1 t) (dim2 t) (fun i h k => f (entry t i h k)).

(** A binary elementwise operation.  Operands of one shape are combined
    entry by entry; torch raises [RuntimeError] for shapes it cannot
    broadcast, and broadcasting itself is not modelled. *)
Definition tzip {A B C} (f : A -> B -> C) (a : tensor A) (b : tensor B)
  : result (tensor C) :=
  if same_shape a b then
    Ok (mkTensor (dim0 a) (dim1 a) (dim2 a)
          (fun i h k => f (entry a i h k) (entry b i h k)))
  else Raise RuntimeError.

(** Comparisons of entries, as booleans. *)
Definition Rlt_b (x y : R) : bool := if Rlt_dec x y then true else false.
Definition Rle_b (x y : R) : bool := if Rle_dec x y then true else false.
Definition Rgt_b (x y : R) : bool := Rlt_b y x.

Definition Rsum (l : list R) : R := foldr Rplus 0 l.

(** The sum of [f 0 .. f (n-1)]. *)
Definition sum_upto (n : nat) (f : nat -> R) : R := Rsum (map f (seq 0 n)).

(** How many of [0 .. n-1] satisfy [f]. *)
Definition count_upto (n : nat) (f : nat -> bool) : nat :=
  length (filter (fun i => f i = true) (seq 0 n)).

(** [torch.sum(t)] *)
Definition torch_sum (t : tensor R) : R :=
  sum_upto (dim0 t) (fun i =>
    sum_upto (dim1 t) (fun h => sum_upto (dim2 t) (fun k => entry t i h k))).

(** [torch.mean(t)]: the sum of the entries over their number.  A tensor
    without entries has no mean: [torch.mean] gives NaN there, which is
    outside the model; the theorems that give a mean a value take the
    tensor to have at least one entry. *)
Definition torch_mean (t : tensor R) : R :=
  torch_sum t / INR (dim0 t * dim1 t * dim2 t).

(** A tensor of shape [[dim1, dim2]], row [h] listing the target variables
    of horizon step [h]. *)
Definition matrix (A : Type) : Type := list (list A).

Definition tabulate {A} (rows cols : nat) (f : nat -> nat -> A) : matrix A :=
  map (fun h => map (fun k => f h k) (seq 0 cols)) (seq 0 rows).

(** [torch.mean(t, dim=0)]; as for [torch_mean], the means of an empty
    batch ([dim0 = 0]) are NaN and outside the model. *)
Definition torch_mean_dim0 (t : tensor R) : matrix R :=
  tabulate (dim1 t) (dim2 t)
    (fun h k => sum_upto (dim0 t) (fun i => entry t i h k) / INR (dim0 t)).

(** [torch.sum(t, dim=0)] of a boolean tensor: the number of true entries. *)
Definition torch_sum_dim0_bool (t : tensor bool) : matrix nat :=
  tabulate (dim1 t) (dim2 t)
    (fun h k => count_upto (dim0 t) (fun i => entry t i h k)).

(** [torch.sum(m)] of a matrix. *)
Definition matrix_sum (m : matrix R) : R := Rsum (map Rsum m).

(** What a scoring function returns: a scalar tensor for [total=True], a
    value per horizon step (and target variable) for [total=False]. *)
Inductive score : Type :=
| Scalar (r : R)
| PerStep (m : matrix R).

(** [.sqrt()] *)
Definition score_sqrt (s : score) : score :=
  match s with
  | Scalar r => Scalar (sqrt r)
  | PerStep m => PerStep (map (map sqrt) m)
  end.

(** The reduction shared by the functions that support both forms. *)
Definition reduce (total : bool) (t : tensor R) : score :=
  if total then Scalar (torch_mean t) else PerStep (torch_mean_dim0 t).

(** [nll_gauss] *)
Definition nll_gauss (target : tensor R) (predictions : list (tensor R))
    (total : bool) : result score :=
  _ ← assert (bool_decide (length predictions = 2%nat));
  expected_value ← getitem predictions 0;
  log_variance ← getitem predictions 1;
  _ ← assert (same_shape target expected_value);
  _ ← assert (same_shape target log_variance);
  errors ← tzip Rminus target expected_value;
  let squared_errors := tmap (fun e => e ^ 2) errors in
  quotient ← tzip Rdiv squared_errors (tmap (fun v => 2 * exp v) log_variance);
  summand ← tzip Rplus quotient (tmap (fun v => 0.5 * v) log_variance);
  Ok (reduce total summand).

(** The loop of [pinball_loss] over [enumerate(quantiles)], from position
    [i] with the loss accumulated so far. *)
Fixpoint pinball_loop (target : tensor R) (predictions : list (tensor R))
    (i : nat) (quantiles : list R) (loss : R) : result R :=
  match quantiles with
  | [] => Ok loss
  | quantile :: rest =>
      _ ← assert (Rlt_b 0 quantile);
      _ ← assert (Rlt_b quantile 1);
      prediction ← getitem predictions i;
      _ ← assert (same_shape target prediction);
      errors ← tzip Rminus target prediction;
      worst ← tzip Rmax (tmap (fun e => quantile * e) errors)
                        (tmap (fun e => (quantile - 1) * e) errors);
      pinball_loop target predictions (S i) rest (loss + torch_mean worst)
  end.

(** [pinball_loss] *)
Definition pinball_loss (target : tensor R) (predictions : list (tensor R))
    (quantiles : list R) (total : bool) : result score :=
  if negb total then Raise NotImplementedError
  else loss ← pinball_loop target predictions 0 quantiles 0; Ok (Scalar loss).

(** [Normal(0, 1).log_prob] of torch. *)
Definition normal_log_prob (x : R) : R :=
  - (x ^ 2) / 2 - ln (sqrt (2 * PI)).

(** [crps_gaussian]; [normal_cdf] stands for [Normal(0, 1).cdf] of torch. *)
Definition crps_gaussian (normal_cdf : R -> R) (target : tensor R)
    (predictions : list (tensor R)) (total : bool) : result score :=
  _ ← assert (bool_decide (length predictions = 2%nat));
  mu ← getitem predictions 0;
  log_variance ← getitem predictions 1;
  if negb total then Raise NotImplementedError
  else
    let sig := tmap (fun v => exp (v * 0.5)) log_variance in
    centred ← tzip Rminus target mu;
    sx ← tzip Rdiv centred sig;
    let pi_inv := 1 / sqrt PI in
    let inner :=
      tmap (fun x => x * (2 * normal_cdf x - 1)
                     + 2 * exp (normal_log_prob x) - pi_inv) sx in
    crps ← tzip Rmult sig inner;
    Ok (Scalar (torch_mean crps)).

(** [mse] *)
Definition mse (target : tensor R) (predictions : list (tensor R))
    (total : bool) : result score :=
  prediction ← getitem predictions 0;
  if negb (same_shape prediction target) then Raise ValueError
  else
    errors ← tzip Rminus target prediction;
    let squared_errors := tmap (fun e => e ^ 2) errors in
    Ok (reduce total squared_errors).

(** [rmse] *)
Definition rmse (target : tensor R) (predictions : list (tensor R))
    (total : bool) : result score :=
  prediction ← getitem predictions 0;
  if negb (same_shape prediction target) then Raise ValueError
  else
    errors ← tzip Rminus target prediction;
    let squared_errors := tmap (fun e => e ^ 2) errors in
    Ok (score_sqrt (reduce total squared_errors)).

(** [picp] *)
Definition picp (target : tensor R) (predictions : list (tensor R))
    (total : bool) : result score :=
  _ ← assert (bool_decide (length predictions = 2%nat));
  y_pred_upper ← getitem predictions 0;
  y_pred_lower ← getitem predictions 1;
  above ← tzip Rgt_b target y_pred_lower;
  below ← tzip Rle_b target y_pred_upper;
  inside ← tzip andb above below;
  let coverage_horizon :=
    map (map (fun c => 100 * INR c / INR (dim0 target)))
      (torch_sum_dim0_bool inside) in
  let coverage_total := matrix_sum coverage_horizon / INR (dim1 target) in
  if total then Ok (Scalar coverage_total) else Ok (PerStep coverage_horizon).

(** ** The formulas of the specification *)

(** The mean of a list of numbers. *)
Definition mean (l : list R) : R := Rsum l / INR (length l).

(** All positions of a tensor of shape [[N, H, K]]. *)
Definition positions (N H K : nat) : list (nat * nat * nat) :=
  i ← seq 0 N; h ← seq 0 H; k ← seq 0 K; [(i, h, k)].

(** The Gaussian negative log-likelihood of one target value. *)
Definition gauss_nll_term (t mu log_variance : R) : R :=
  (t - mu) ^ 2 / (2 * exp log_variance) + 0.5 * log_variance.

(** A target is covered when it lies in the half-open interval
    [(lower, upper]]. *)
Definition covered (t upper lower : R) : Prop := lower < t /\ t <= upper.

Definition covered_b (t upper lower : R) : bool :=
  Rgt_b t lower && Rle_b t upper.

(** ** Concrete tensors *)

(** The tensor of shape [[N, H, K]] with every entry equal to [v]. *)
Definition full (N H K : nat) (v : R) : tensor R :=
  mkTensor N H K (fun _ _ _ => v).

End Metrics.

(** * The other scoring functions of [utils/metrics.py] *)

Module MetricsMore.
Import Py Metrics.
Local Open Scope R_scope.

(** [residuals] *)
Definition residuals (target : tensor R) (predictions : list (tensor R))
    (total : bool) : result score :=
  prediction ← getitem predictions 0;
  if negb (same_shape prediction target) then Raise ValueError
  else
    error ← tzip Rminus target prediction;
    Ok (reduce total error).

(** [a + b] on scores, a scalar being added to every entry. *)
Definition score_add (a b : score) : score :=
  match a, b with
  | Scalar x, Scalar y => Scalar (x + y)
  | Scalar x, PerStep m => PerStep (map (map (fun y => x + y)) m)
  | PerStep m, Scalar y => PerStep (map (map (fun x => x + y)) m)
  | PerStep m, PerStep m' => PerStep (zip_with (zip_with Rplus) m m')
  end.

(** [quantile_score] *)
Definition quantile_score (target : tensor R) (predictions : list (tensor R))
    (quantiles : list R) (total : bool) : result score :=
  loss1 ← pinball_loss target predictions quantiles total;
  median ← getitem predictions (length quantiles);
  loss2 ← rmse target [median] true;
  Ok (score_add loss1 loss2).

(** [mape] *)
Definition mape (target : tensor R) (predictions : list (tensor R))
    (total : bool) : result score :=
  if negb total then Raise NotImplementedError
  else
    prediction ← getitem predictions 0;
    error ← tzip Rminus target prediction;
    ratio ← tzip Rdiv error target;
    Ok (Scalar (torch_mean (tmap Rabs ratio) * 100)).

(** [torch.roll(t, shift, 0)]: window [i] of the result is window
    [i - shift] of [t], counted modulo the number of windows. *)
Definition roll0 (shift : nat) (t : tensor R) : tensor R :=
  mkTensor (dim0 t) (dim1 t) (dim2 t)
    (fun i h k =>
       entry t ((i + (dim0 t - shift mod dim0 t)) mod dim0 t)%nat h k).

(** [t[start:]] *)
Definition slice_from (start : nat) (t : tensor R) : tensor R :=
  mkTensor (dim0 t - start) (dim1 t) (dim2 t)
    (fun i h k => entry t (i + start)%nat h k).

(** [mase] *)
Definition mase (target : tensor R) (predictions : list (tensor R))
    (freq : nat) (total : bool) (insample_target : option (tensor R))
  : result score :=
  if negb total then Raise NotImplementedError
  else
    y_hat_test ← getitem predictions 0;
    let y_hat_naive :=
      match insample_target with
      | None => roll0 freq target
      | Some insample => insample
      end in
    naive_error ← tzip Rminus (slice_from freq target)
                               (slice_from freq y_hat_naive);
    let masep := torch_mean (tmap Rabs naive_error) in
    test_error ← tzip Rminus (slice_from freq target)
                              (slice_from freq y_hat_test);
    Ok (Scalar (torch_mean (tmap Rabs test_error) / masep)).

(** [sharpness] *)
Definition sharpness (predictions : list (tensor R)) (total : bool)
  : result score :=
  _ ← assert (bool_decide (length predictions = 2%nat));
  y_pred_upper ← getitem predictions 0;
  y_pred_lower ← getitem predictions 1;
  width ← tzip Rminus y_pred_upper y_pred_lower;
  Ok (reduce total width).

(** [1 - s] on a score. *)
Definition one_minus (s : score) : score :=
  match s with
  | Scalar r => Scalar (1 - r)
  | PerStep m => PerStep (map (map (fun r => 1 - r)) m)
  end.

(** [picp_loss] *)
Definition picp_loss (target : tensor R) (predictions : list (tensor R))
    (total : bool) : result score :=
  one_minus <$> picp target predictions total.

(** What [mis] returns: a scalar for [total=True], a vector with one entry
    per horizon step for [total=False]. *)
Inductive horizon_score : Type :=
| Total (r : R)
| Horizon (v : list R).

(** [t[:, i]], kept as a tensor with a single horizon step. *)
Definition step_slice (t : tensor R) (i : nat) : result (tensor R) :=
  if (i <? dim1 t)%nat then
    Ok (mkTensor (dim0 t) 1 (dim2 t) (fun n _ k => entry t n i k))
  else Raise IndexError.

(** [torch.sum(d[d > 0])] *)
Definition sum_positive (d : tensor R) : R :=
  torch_sum (tmap (fun x => if Rlt_b 0 x then x else 0) d).

(** [2 / alpha] on Python floats. *)
Definition two_over (alpha : R) : result R :=
  if Req_dec_T alpha 0 then Raise ZeroDivisionError else Ok (2 / alpha).

(** The body of the loop of [mis] for horizon step [i]: the value stored in
    [mis_horizon[i]]. *)
Definition mis_step (target y_pred_upper y_pred_lower : tensor R) (alpha : R)
    (i : nat) : result R :=
  upper_i ← step_slice y_pred_upper i;
  lower_i ← step_slice y_pred_lower i;
  width ← tzip Rminus upper_i lower_i;
  let large_PI_penalty := torch_sum width in
  target_i ← step_slice target i;
  diff_lower ← tzip Rminus lower_i target_i;
  factor ← two_over alpha;
  let under_est_penalty := factor * sum_positive diff_lower in
  diff_upper ← tzip Rminus target_i upper_i;
  let over_est_penalty := factor * sum_positive diff_upper in
  Ok ((large_PI_penalty + under_est_penalty + over_est_penalty)
      / INR (dim0 target)).

(** The loop of [mis] over the given horizon steps. *)
Fixpoint mis_loop (target y_pred_upper y_pred_lower : tensor R) (alpha : R)
    (steps : list nat) : result (list R) :=
  match steps with
  | [] => Ok []
  | i :: rest =>
      v ← mis_step target y_pred_upper y_pred_lower alpha i;
      vs ← mis_loop target y_pred_upper y_pred_lower alpha rest;
      Ok (v :: vs)
  end.

(** [mis] *)
Definition mis (target : tensor R) (predictions : list (tensor R))
    (alpha : R) (total : bool) : result horizon_score :=
  _ ← assert (bool_decide (length predictions = 2%nat));
  y_pred_upper ← getitem predictions 0;
  y_pred_lower ← getitem predictions 1;
  mis_horizon ← mis_loop target y_pred_upper y_pred_lower alpha
                  (seq 0 (dim1 target));
  let mis_total := Rsum mis_horizon / INR (dim1 target) in
  if total then Ok (Total mis_total) else Ok (Horizon mis_horizon).

(** [rae] *)
Definition rae (target : tensor R) (predictions : list (tensor R))
    (total : bool) : result score :=
  y_hat_test ← getitem predictions 0;
  let y_hat_naive := torch_mean target in
  if negb total then Raise NotImplementedError
  else
    test_error ← tzip Rminus target y_hat_test;
    let naive_error := tmap (fun t => t - y_hat_naive) target in
    Ok (Scalar (torch_mean (tmap Rabs test_error)
                / torch_mean (tmap Rabs naive_error))).

(** [mae] *)
Definition mae (target : tensor R) (predictions : list (tensor R))
    (total : bool) : result score :=
  if negb total then Raise NotImplementedError
  else
    y_hat_test ← getitem predictions 0;
    test_error ← tzip Rminus target y_hat_test;
    Ok (Scalar (torch_mean (tmap Rabs test_error))).

(** ** Shapes and positions *)

(** A tensor with at least one entry. *)
Definition nonempty {A} (t : tensor A) : Prop :=
  (1 <= dim0 t)%nat /\ (1 <= dim1 t)%nat /\ (1 <= dim2 t)%nat.

(** Position [(i, h, k)] lies within the shape of [t]. *)
Definition within {A} (t : tensor A) (i h k : nat) : Prop :=
  (i < dim0 t)%nat /\ (h < dim1 t)%nat /\ (k < dim2 t)%nat.

(** A quantile that passes the assertions of [pinball_loss]. *)
Definition valid_quantile (q : R) : Prop := 0 < q /\ q < 1.

(** ** The interval score of one observation *)

(** The positive part that [d[d > 0]] keeps. *)
Definition positive_part (x : R) : R := if Rlt_b 0 x then x else 0.

(** The interval score of a target [t] for the interval [[lower, upper]] at
    significance level [alpha]: the width of the interval plus [2 / alpha]
    times the distance by which the target lies outside it. *)
Definition interval_score (alpha t upper lower : R) : R :=
  (upper - lower)
  + 2 / alpha * positive_part (lower - t)
  + 2 / alpha * positive_part (t - upper).

(** The interval scores of horizon step [h], summed over the batch and the
    target variables. *)
Definition step_interval_score (alpha : R) (target upper lower : tensor R)
    (h : nat) : R :=
  torch_sum
    (mkTensor (dim0 target) 1 (dim2 target)
       (fun n _ k =>
          interval_score alpha (entry target n h k) (entry upper n h k)
            (entry lower n h k))).

(** The forecast that predicts the mean of the target everywhere. *)
Definition mean_forecast (target : tensor R) : tensor R :=
  tmap (fun _ => torch_mean target) target.

(** The forecast that predicts 0 everywhere. *)
Definition zero_forecast (target : tensor R) : tensor R :=
  tmap (fun _ => 0) target.

(** ** Concrete tensors *)

(** A tensor of shape [[3, 1, 1]] with the given three entries. *)
Definition column3 (a b c : R) : tensor R :=
  mkTensor 3 1 1 (fun i _ _ =>
    match i with
    | O => a
    | S O => b
    | _ => c
    end).

End MetricsMore.

(** * The training loop of [source/train.py] *)

Module Train.
Import Py.

(** A loss or score: an exact rational, or [np.inf]. *)
Inductive xloss : Type :=
| Finite (q : Q)
| Infinite.

(** [a < b] for a finite [a]. *)
Definition below (a : Q) (b : xloss) : bool :=
  match b with
  | Finite q => if Qlt_le_dec a q then true else false
  | Infinite => true
  end.

(** [b - delta] *)
Definition minus_margin (b : xloss) (delta : Q) : xloss :=
  match b with
  | Finite q => Finite (q - delta)
  | Infinite => Infinite
  end.

(** The model and optimizer contract: the external collaborators of the
    training loop, with the hyperparameters of the run fixed. *)
Class Learner : Type := {
  (** the parameters of the network, [net.state_dict()] *)
  Net : Type;
  (** the state of the optimizer and of the random number generator *)
  Aux : Type;
  (** one mini-batch [(inputs1, inputs2, targets)] *)
  Batch : Type;
  (** [mh.set_optimizer(optimizer_name, net, learning_rate)] *)
  set_optimizer : Net -> Aux;
  (** [torch.nn.init.uniform_(param.data, -0.08, 0.08)] on every parameter *)
  init_uniform : Net -> Net;
  (** forward pass, [zero_grad], loss, [backward], gradient clipping to 1 and
      [optimizer.step()]; returns [loss.item()] too *)
  train_step : Net -> Aux -> Batch -> Net * Aux * Q;
  (** [criterion(targets, net(inputs1, inputs2)[0]).item()] in evaluation
      mode *)
  eval_loss : Net -> Batch -> Q;
  (** [mh.performance_test(net, test_data_loader, "mis", horizon).item()] *)
  performance_test : Net -> list Batch -> Q
}.

(** The batches that the three loaders yield: the pass consumed by
    [next(iter(train_data_loader))] before training, the training and
    validation passes of each epoch, and the test pass. *)
Record Loaders `{Learner} : Type := mkLoaders {
  probe_pass : list Batch;
  train_pass : nat -> list Batch;
  valid_pass : nat -> list Batch;
  test_pass : list Batch
}.
Arguments mkLoaders {_} _ _ _ _.

(** ** Early stopping *)

(** Modelled from the spec: [mh.EarlyStopping] of [utils/modelhandler.py] is
    not part of the sources.  State: the best loss so far (read by [train]
    as [val_loss_min], initially infinite), the counter of epochs without
    improvement, the patience, the margin, the stop flag (read by [train] as
    [early_stop]) and the persisted checkpoint (the file
    [temp_dir + "checkpoint.pt"], absent until first written). *)
Record EarlyStopping `{Learner} : Type := mkEarlyStopping {
  val_loss_min : xloss;
  counter : nat;
  patience : nat;
  delta : Q;
  early_stop : bool;
  checkpoint : option Net
}.
Arguments mkEarlyStopping {_} _ _ _ _ _ _.

(** Modelled from the spec: the freshly constructed controller. *)
Definition early_stopping_new `{Learner} (patience : nat) (delta : Q)
  : EarlyStopping :=
  mkEarlyStopping Infinite 0 patience delta false None.

(** Modelled from the spec: [early_stopping(validation_loss, net)].  A loss
    below [best_loss - delta] resets the counter, becomes the best loss and
    persists the parameters; any other loss increments the counter and sets
    the stop flag once the counter has reached the patience. *)
Definition early_stopping_call `{Learner} (es : EarlyStopping)
    (validation_loss : Q) (net : Net) : EarlyStopping :=
  if below validation_loss (minus_margin (val_loss_min es) (delta es)) then
    mkEarlyStopping (Finite validation_loss) 0 (patience es) (delta es)
      (early_stop es) (Some net)
  else
    let c := S (counter es) in
    mkEarlyStopping (val_loss_min es) c (patience es) (delta es)
      (if (patience es <=? c)%nat then true else early_stop es)
      (checkpoint es).

(** ** What the reporting code reads *)

(** The argument [logging_tb] and the entries of the configuration [PAR]
    that [train] reads, each [None] when the key is absent: the truth value
    of [PAR["exploration"]], whether [PAR["trial_id"]] is an [int], the truth
    value of [PAR["best_score"]], and [PAR["hyper_params"]]. *)
Record Reporting : Type := mkReporting {
  logging_tb : bool;
  exploration : option bool;
  trial_id_is_int : option bool;
  best_score : option bool;
  hyper_params : option unit
}.

(** [PAR[key]] *)
Definition par_entry {A : Type} (entry : option A) : result A :=
  match entry with
  | Some v => Ok v
  | None => Raise KeyError
  end.

(** Reading a local variable that is assigned only in the body of the epoch
    loop; [None] while it is unassigned. *)
Definition read_local {A : Type} (v : option A) : result A :=
  match v with
  | Some a => Ok a
  | None => Raise UnboundLocalError
  end.

(** The block [if logging_tb:] before the loop: the name of the run
    directory reads [PAR["exploration"]] and, for a tuning run,
    [PAR["trial_id"]]. *)
Definition open_log (rep : Reporting) : result unit :=
  if logging_tb rep then
    tuning ← par_entry (exploration rep);
    if tuning : bool then _ ← par_entry (trial_id_is_int rep); Ok tt else Ok tt
  else Ok tt.

(** [if PAR["best_score"]:], which selects how [rel_score] is computed. *)
Definition relative_score (rep : Reporting) : result unit :=
  _ ← par_entry (best_score rep); Ok tt.

(** [(not PAR["exploration"]) or (PAR["exploration"] and
    not isinstance(PAR["trial_id"], int))] *)
Definition logs_once (rep : Reporting) : result bool :=
  tuning ← par_entry (exploration rep);
  if tuning : bool then
    is_int ← par_entry (trial_id_is_int rep); Ok (negb is_int)
  else Ok true.

(** ** The epoch loop *)

(** [x / len(loader)] for a loader that yields [n] batches per pass. *)
Definition per_batch (x : Q) (n : nat) : Q := (x / inject_Z (Z.of_nat n))%Q.

(** The training part of one epoch: one optimisation step per batch.  The
    accumulator holds the parameters, the optimizer state, [epoch_loss] and
    [final_epoch_loss], which is assigned after every step. *)
Definition train_batches `{Learner} (batches : list Batch) (net : Net) (aux : Aux)
    (final_epoch_loss : Q) : Net * Aux * Q * Q :=
  foldl (fun '(n, a, epoch_loss, _) b =>
           let '(n', a', loss) := train_step n a b in
           let epoch_loss' :=
             (epoch_loss + per_batch loss (length batches))%Q in
           (n', a', epoch_loss', epoch_loss'))
    (net, aux, 0%Q, final_epoch_loss) batches.

(** The validation part of one epoch: [validation_loss]. *)
Definition validate `{Learner} (batches : list Batch) (net : Net) : Q :=
  foldl (fun validation_loss b =>
           (validation_loss + per_batch (eval_loss net b) (length batches))%Q)
    0%Q batches.

(** The variables of [train] that the loop updates.  [t1_stop] is assigned
    in the body of the loop only: it is [None] until then, and afterwards
    stands for the clock reading of the epoch whose number it holds.
    [epochs_run] counts the epochs begun; it is no variable of the code. *)
Record loop_state `{Learner} : Type := mkLoop {
  net : Net;
  aux : Aux;
  early_stopping : EarlyStopping;
  final_epoch_loss : Q;
  epochs_run : nat;
  t1_stop : option nat
}.
Arguments mkLoop {_} _ _ _ _ _ _.

(** [for epoch in range(max_epochs)], from [epoch] on with [remaining]
    iterations left.  A stop loads the checkpoint file into the network and
    leaves the loop; [torch.load] raises when the file does not exist. *)
Fixpoint epoch_loop `{Learner} (data : Loaders) (remaining epoch : nat)
    (st : loop_state) : result loop_state :=
  match remaining with
  | O => Ok st
  | S remaining' =>
      let '(net', aux', epoch_loss, final_loss) :=
        train_batches (train_pass data epoch) (net st) (aux st)
          (final_epoch_loss st) in
      let validation_loss := validate (valid_pass data epoch) net' in
      let es := early_stopping_call (early_stopping st) validation_loss net' in
      if early_stop es then
        match checkpoint es with
        | Some best => Ok (mkLoop best aux' es final_loss (S epoch) (Some epoch))
        | None => Raise FileNotFoundError
        end
      else
        epoch_loop data remaining' (S epoch)
          (mkLoop net' aux' es final_loss (S epoch) (Some epoch))
  end.

(** The arguments that [log_data] receives from the run: [final_epoch_loss],
    the minimum validation loss and the score. *)
Definition log_line : Type := (Q * xloss * Q)%type.

(** The call of [log_data], made once per run; its fourth argument is
    [t1_stop - t0_start]. *)
Definition log_run `{Learner} (rep : Reporting) (st : loop_state) (score : Q)
  : result (option log_line) :=
  once ← logs_once rep;
  if once : bool then
    _ ← read_local (t1_stop st);
    Ok (Some (final_epoch_loss st, val_loss_min (early_stopping st), score))
  else Ok None.

(** The block [if logging_tb:] after the loop: the hyperparameters are
    [PAR["hyper_params"]] for a tuning run, and the metrics start with
    [t1_stop - t0_start]. *)
Definition log_hparams `{Learner} (rep : Reporting) (st : loop_state)
  : result unit :=
  if logging_tb rep then
    tuning ← par_entry (exploration rep);
    _ ← (if tuning : bool then par_entry (hyper_params rep) else Ok tt);
    _ ← read_local (t1_stop st);
    Ok tt
  else Ok tt.

(** What [train] returns: the network, the line that [log_data] has added to
    [log_df] ([None] when [log_df] is returned as it was passed in), the
    minimum validation loss and the test score.  [stopped] and [epochs] are
    not returned by the code: they record the stop flag of the controller
    and the number of epochs begun when the loop was left. *)
Record trained `{Learner} : Type := mkTrained {
  trained_net : Net;
  logged : option log_line;
  min_val_loss : xloss;
  score : Q;
  stopped : bool;
  epochs : nat
}.
Arguments mkTrained {_} _ _ _ _ _ _.

(** [train].  [patience] and [delta] are the defaults of [EarlyStopping()];
    [max_epochs] is a number of epochs, [range] of a negative number being
    that of 0.  The calls into TensorBoard, [print], [log_data] and
    [mh.calculate_relative_metric] are taken to return; what remains of the
    reporting code is its reading of [PAR] and of [t1_stop]. *)
Definition train `{Learner} (patience : nat) (delta : Q) (rep : Reporting)
    (data : Loaders) (net0 : Net) (max_epochs : nat) : result trained :=
  let es := early_stopping_new patience delta in
  let optimizer := set_optimizer net0 in
  _ ← match probe_pass data with
      | [] => Raise StopIteration
      | first :: _ => Ok first
      end;
  _ ← open_log rep;
  st ← epoch_loop data max_epochs 0
         (mkLoop (init_uniform net0) optimizer es 0%Q 0 None);
  let score := performance_test (net st) (test_pass data) in
  _ ← relative_score rep;
  line ← log_run rep st score;
  _ ← log_hparams rep st;
  Ok (mkTrained (net st) line (val_loss_min (early_stopping st)) score
        (early_stop (early_stopping st)) (epochs_run st)).

(** ** The run without early stopping, for reference *)

(** Parameters and optimizer state after [e] epochs of training. *)
Fixpoint state_after `{Learner} (data : Loaders) (net0 : Net) (e : nat)
  : Net * Aux :=
  match e with
  | O => (init_uniform net0, set_optimizer net0)
  | S e' =>
      let '(n, a) := state_after data net0 e' in
      let '(n', a', _, _) := train_batches (train_pass data e') n a 0%Q in
      (n', a')
  end.

(** The parameters at the end of epoch [e] (counted from 0). *)
Definition net_of_epoch `{Learner} (data : Loaders) (net0 : Net) (e : nat) : Net :=
  (state_after data net0 (S e)).1.

(** The validation loss measured in epoch [e]. *)
Definition loss_of_epoch `{Learner} (data : Loaders) (net0 : Net) (e : nat) : Q :=
  validate (valid_pass data e) (net_of_epoch data net0 e).

(** ** Invariants of the epoch loop *)

(** The controller after [epoch] epochs in which it did not stop: nothing
    seen yet, or the best epoch [k] with its loss and its persisted
    parameters. *)
Definition tracks_best `{Learner} (data : Loaders) (net0 : Net) (margin : Q)
    (epoch : nat) (es : EarlyStopping) : Prop :=
  (epoch = 0%nat /\ val_loss_min es = Infinite) \/
  (exists k, (k < epoch)%nat /\
             val_loss_min es = Finite (loss_of_epoch data net0 k) /\
             checkpoint es = Some (net_of_epoch data net0 k) /\
             forall j, (j < epoch)%nat ->
               (loss_of_epoch data net0 k - margin
                <= loss_of_epoch data net0 j)%Q).

(** ** The controller on its own *)

(** The controller after the calls of the epochs [0 .. e-1], each with the
    validation loss and the parameters of its epoch in the run without
    early stopping. *)
Fixpoint controller_after `{Learner} (patience : nat) (margin : Q)
    (data : Loaders) (net0 : Net) (e : nat) : EarlyStopping :=
  match e with
  | O => early_stopping_new patience margin
  | S e' =>
      early_stopping_call (controller_after patience margin data net0 e')
        (loss_of_epoch data net0 e') (net_of_epoch data net0 e')
  end.

(** The stop flag after the call of epoch [e]. *)
Definition signals `{Learner} (patience : nat) (margin : Q) (data : Loaders)
    (net0 : Net) (e : nat) : bool :=
  early_stop (controller_after patience margin data net0 (S e)).

(** The controller signals a stop in epoch [e] and in no epoch before. *)
Definition first_signal `{Learner} (patience : nat) (margin : Q)
    (data : Loaders) (net0 : Net) (e : nat) : Prop :=
  signals patience margin data net0 e = true /\
  forall j, (j < e)%nat -> signals patience margin data net0 j = false.

(** The loop at the start of epoch [epoch]: no stop so far. *)
Definition loop_invariant `{Learner} (patience : nat) (margin : Q)
    (data : Loaders) (net0 : Net) (epoch : nat) (st : loop_state) : Prop :=
  (net st, aux st) = state_after data net0 epoch /\
  early_stopping st = controller_after patience margin data net0 epoch /\
  epochs_run st = epoch.

(** The configuration holds the keys that the reporting code may read. *)
Definition keys_present (rep : Reporting) : Prop :=
  is_Some (exploration rep) /\ is_Some (trial_id_is_int rep) /\
  is_Some (best_score rep) /\ is_Some (hyper_params rep).

(** Whether the code after the loop reads [t1_stop]. *)
Definition reads_t1_stop (rep : Reporting) : bool :=
  logging_tb rep ||
  match exploration rep, trial_id_is_int rep with
  | Some true, Some is_int => negb is_int
  | _, _ => true
  end.

(** ** A small learner to run the loop on *)

(** The network is a counter of optimisation steps; its validation loss after
    [n] steps is the [n]-th entry of a fixed table. *)
Definition sample_losses : list Q := [9; 5; 3; 4; 6; 7; 8]%Q.

Definition sample_learner : Learner := {|
  Net := nat;
  Aux := unit;
  Batch := unit;
  set_optimizer := fun _ => tt;
  init_uniform := fun _ => 0%nat;
  train_step := fun n a _ => (S n, a, 1%Q);
  eval_loss := fun n _ => nth n sample_losses 0%Q;
  performance_test := fun n _ => nth n sample_losses 0%Q
|}.

Definition sample_loaders : @Loaders sample_learner :=
  @mkLoaders sample_learner [tt] (fun _ => [tt]) (fun _ => [tt]) [tt].

(** The final training of [main] with the defaults: TensorBoard on, no
    tuning, [PAR["trial_id"] = "main_run"], no recorded score. *)
Definition sample_reporting : Reporting :=
  mkReporting true (Some false) (Some false) (Some false) (Some tt).

End Train.

(** * The model-improvement decision of [main] in [source/train.py] *)

Module RunController.
Import Py Train.

(** The values of the configuration dictionary [PAR]. *)
Inductive pyval : Type :=
| PNone
| PBool (b : bool)
| PNum (x : xloss)
| PStr (s : string).

(** Truth value of a configuration entry in an [if]. *)
Definition truthy (v : pyval) : bool :=
  match v with
  | PNone => false
  | PBool b => b
  | PNum (Finite q) => negb (Qeq_bool q 0)
  | PNum Infinite => true
  | PStr s => negb (bool_decide (s = ""))
  end.

(** [PAR[key]] *)
Definition par_get (PAR : gmap string pyval) (key : string) : result pyval :=
  match PAR !! key with
  | Some v => Ok v
  | None => Raise KeyError
  end.

(** The result of the hyperparameter search: [study.best_value] and
    [trial.params]. *)
Record study : Type := mkStudy {
  best_value : Q;
  best_params : gmap string pyval
}.

(** What [query_true_false] does: it returns the user's answer, or the user
    interrupts the run at the prompt. *)
Inductive answer : Type :=
| Yes
| No
| Interrupt.

(** [score_sofar]: the recorded best score, [np.inf] when the key is absent
    or holds [None]. *)
Definition score_sofar (PAR : gmap string pyval) : pyval :=
  match PAR !! "best_score" with
  | None | Some PNone => PNum Infinite
  | Some v => v
  end.

(** [score_sofar > new_score] *)
Definition exceeds (sofar : pyval) (new_score : Q) : result bool :=
  match sofar with
  | PNum x => Ok (below new_score x)
  | PBool b => Ok (below new_score (Finite (if b then 1 else 0)))
  | PNone | PStr _ => Raise TypeError
  end.

Section Main.
Context {Net Log : Type}.

(** The variables of [main] that the decision reads and updates. *)
Record run : Type := mkRun {
  PAR : gmap string pyval;
  min_net : option Net;
  log_df : option Log
}.

(** What the [finally] block leaves on disk: the model written by
    [torch.save], the configuration written by [write_config] and the log
    written by [write_log_to_csv]; [None] where nothing is written. *)
Record artifacts : Type := mkArtifacts {
  model_file : option Net;
  config_file : option (gmap string pyval);
  log_file : option Log
}.

(** The first [if PAR["exploration"]] block of the improvement branch. *)
Definition overwrite_config (ci : bool) (search : option study)
    (overwrite : answer) (r : run) : run * result unit :=
  match par_get (PAR r) "exploration" with
  | Raise e => (r, Raise e)
  | Ok exploration =>
      if truthy exploration && negb ci then
        match overwrite with
        | Interrupt => (r, Raise KeyboardInterrupt)
        | No => (r, Ok tt)
        | Yes =>
            match search with
            | None => (r, Raise NameError)
            | Some s =>
                (mkRun (best_params s ∪
                          <["best_loss" := PNum (Finite (best_value s))]> (PAR r))
                   (min_net r) (log_df r),
                 Ok tt)
            end
        end
      else (r, Ok tt)
  end.

(** The second [if PAR["exploration"]] block of the improvement branch. *)
Definition turn_off_tuning (ci : bool) (turn_off : answer) (r : run)
  : run * result unit :=
  match par_get (PAR r) "exploration" with
  | Raise e => (r, Raise e)
  | Ok exploration =>
      if truthy exploration && negb ci then
        match turn_off with
        | Interrupt => (r, Raise KeyboardInterrupt)
        | Yes => (mkRun (<["exploration" := PBool false]> (PAR r))
                    (min_net r) (log_df r), Ok tt)
        | No => (mkRun (<["exploration" := PBool true]> (PAR r))
                   (min_net r) (log_df r), Ok tt)
        end
      else (r, Ok tt)
  end.

(** The statements of [main] from the comparison with [score_sofar] to the
    end of the [try] block. *)
Definition improvement_decision (ci : bool) (search : option study)
    (overwrite turn_off : answer) (net : Net) (loss : xloss) (new_score : Q)
    (r : run) : run * result unit :=
  match exceeds (score_sofar (PAR r)) new_score with
  | Raise e => (r, Raise e)
  | Ok false => (r, Ok tt)
  | Ok true =>
      let r1 :=
        mkRun (<["best_loss" := PNum loss]>
                 (<["best_score" := PNum (Finite new_score)]> (PAR r)))
          (Some net) (log_df r) in
      match overwrite_config ci search overwrite r1 with
      | (r2, Raise e) => (r2, Raise e)
      | (r2, Ok _) => turn_off_tuning ci turn_off r2
      end
  end.

(** The [finally] block. *)
Definition finally_save (r : run) : artifacts :=
  mkArtifacts (min_net r)
    (match min_net r with
     | Some _ =>
         Some (delete "n_trials" (delete "trial_id"
                 (delete "hyper_params" (PAR r))))
     | None => None
     end)
    (log_df r).

(** [main] from the return of the final training phase on.  [training] is
    the outcome of the [try] block up to and including the call of [train]:
    the returned tuple, or the exception that ended it.  The result is what
    is on disk afterwards and how [main] ends: [KeyboardInterrupt] is caught,
    any other exception leaves [main] after the [finally] block. *)
Definition main_after_training (ci : bool) (search : option study)
    (overwrite turn_off : answer) (PAR0 : gmap string pyval)
    (log0 : option Log) (training : result (Net * option Log * xloss * Q))
  : artifacts * result unit :=
  let '(r, ended) :=
    match training with
    | Raise e => (mkRun PAR0 None log0, Raise e)
    | Ok (net, log, loss, new_score) =>
        improvement_decision ci search overwrite turn_off net loss new_score
          (mkRun PAR0 None log)
    end in
  (finally_save r,
   match ended with
   | Raise KeyboardInterrupt => Ok tt
   | other => other
   end).

End Main.

Arguments run : clear implicits.
Arguments artifacts : clear implicits.

(** ** The decision as the specification words it *)

(** The previously best-recorded score as a number, a missing one being
    positive infinity; [None] for an entry that is no number. *)
Definition previous_best (PAR0 : gmap string pyval) : option xloss :=
  match PAR0 !! "best_score" with
  | None | Some PNone => Some Infinite
  | Some (PNum x) => Some x
  | Some (PBool b) => Some (Finite (if b then 1 else 0))
  | Some (PStr _) => None
  end.

(** [s] is strictly lower than [x]. *)
Definition strictly_lower (s : Q) (x : xloss) : Prop :=
  match x with
  | Finite q => (s < q)%Q
  | Infinite => True
  end.

End RunController.

(** * The configuration written by [main] *)

Module RunConfig.
Import Py Train RunController.

(** The configuration that is written after an improvement when no prompt
    changed it. *)
Definition improved_config (PAR0 : gmap string pyval) (loss : xloss)
    (new_score : Q) : gmap string pyval :=
  delete "n_trials" (delete "trial_id" (delete "hyper_params"
    (<["best_loss" := PNum loss]>
       (<["best_score" := PNum (Finite new_score)]> PAR0)))).

End RunConfig.

(** * [main] of [src/train.py], the run built on the model handler *)

Module HandlerRun.
Import Py.

(** The calls of [main] into its collaborators, in program order: reading
    and preparing the data (up to the second [TimeSeriesData]), reading the
    tuning configuration, constructing the model handler, [fit],
    [load_model], [select_model], [save_current_model], [get_config],
    [write_config] and [end_logging]. *)
Inductive call : Set :=
| PrepareData
| ReadTuningConfig
| MakeHandler
| Fit
| LoadModel
| SelectModel
| SaveCurrentModel
| GetConfig
| WriteConfig
| EndLogging.

#[global] Instance call_eq_dec : EqDecision call.
Proof. solve_decision. Defined.

(** One run of the collaborators: what each call returns or raises, and the
    reference model that [load_model] returns ([None] when it returns the
    value [None]). *)
Record collaborators (Model : Type) : Type := mkCollaborators {
  outcome : call -> result unit;
  loaded : option Model
}.
Arguments mkCollaborators {Model} _ _.
Arguments outcome {Model} _ _.
Arguments loaded {Model} _.

(** A computation of [main]: the calls made so far, in order, and the value
    or the exception. *)
Definition traced (A : Type) : Type := (list call * result A)%type.

Definition traced_ret {A} (a : A) : traced A := ([], Ok a).

Definition traced_bind {A B} (m : traced A) (k : A -> traced B) : traced B :=
  match m with
  | (calls, Ok a) => let '(calls', r) := k a in (calls ++ calls', r)
  | (calls, Raise e) => (calls, Raise e)
  end.

(** A call into a collaborator. *)
Definition invoke {Model} (w : collaborators Model) (c : call) : traced unit :=
  ([c], outcome w c).

(** The inner [try] around [load_model]: [FileNotFoundError] and every other
    [Exception] give no reference model; [KeyboardInterrupt] is no
    [Exception] and passes through. *)
Definition load_reference {Model} (w : collaborators Model)
  : traced (option Model) :=
  ([LoadModel],
   match outcome w LoadModel with
   | Ok _ => Ok (loaded w)
   | Raise KeyboardInterrupt => Raise KeyboardInterrupt
   | Raise _ => Ok None
   end).

(** The body of the outer [try]. *)
Definition try_body {Model} (w : collaborators Model)
    (exploration_path : bool) : traced unit :=
  traced_bind (invoke w PrepareData) (fun _ =>
  traced_bind (if exploration_path then invoke w ReadTuningConfig
               else traced_ret tt) (fun _ =>
  traced_bind (invoke w MakeHandler) (fun _ =>
  traced_bind (invoke w Fit) (fun _ =>
  traced_bind (load_reference w) (fun ref_model_1 =>
  traced_bind (match ref_model_1 with
               | Some _ => invoke w SelectModel
               | None => traced_ret tt
               end) (fun _ =>
  traced_bind (invoke w SaveCurrentModel) (fun _ =>
  traced_bind (invoke w GetConfig) (fun _ =>
  invoke w WriteConfig)))))))).

(** [main] after [init_logging] has returned [log_df]: the [try] body, the
    handler of [KeyboardInterrupt] and the [finally] block, in which an
    exception of [end_logging] replaces the pending one. *)
Definition main {Model} (w : collaborators Model) (exploration_path : bool)
    (log_df_present : bool) : traced unit :=
  let '(calls, ended) := try_body w exploration_path in
  let ended' :=
    match ended with
    | Raise KeyboardInterrupt => Ok tt
    | other => other
    end in
  if log_df_present then
    (calls ++ [EndLogging],
     match outcome w EndLogging with
     | Ok _ => ended'
     | Raise e => Raise e
     end)
  else (calls, ended').

(** The calls before [load_model] return. *)
Definition fitted {Model} (w : collaborators Model) (exploration_path : bool)
  : Prop :=
  outcome w PrepareData = Ok tt /\
  (exploration_path = true -> outcome w ReadTuningConfig = Ok tt) /\
  outcome w MakeHandler = Ok tt /\
  outcome w Fit = Ok tt.

(** Collaborators that all return, except that [load_model] ends as
    given. *)
Definition smooth_run (load : result unit) (reference : option nat)
  : collaborators nat :=
  mkCollaborators
    (fun c => match c with LoadModel => load | _ => Ok tt end) reference.

End HandlerRun.

(** * Sums of batch losses *)

Module TrainLosses.
Import Py Train.

(** The sum of the losses of the batches. *)
Definition total_loss `{Learner} (f : Batch -> Q) (batches : list Batch) : Q :=
  foldr (fun b s => (f b + s)%Q) 0%Q batches.

End TrainLosses.

(** * Properties of the batch iterator *)

Module TensorLoaderFacts.
Import Py TensorLoader.

Section Iterator.
Context {W : Type}.
Implicit Types (d : CustomTensorData W) (ld : CustomTensorDataLoader W).
Implicit Types (flat row draw : list nat) (p : list (list nat)).

Lemma rows_of_length r c flat : length (rows_of r c flat) = r.
Proof. revert flat; induction r as [|r IH]; intros flat; simpl; auto. Qed.

Lemma rows_of_concat r c flat :
  length flat = r * c -> concat (rows_of r c flat) = flat.
Proof.
  revert flat; induction r as [|r IH]; intros flat Hlen; simpl in *.
  - by destruct flat.
  - rewrite IH; [apply take_drop | rewrite length_drop; lia].
Qed.

Lemma rows_of_row_length r c flat :
  length flat = r * c -> Forall (fun row => length row = c) (rows_of r c flat).
Proof.
  revert flat; induction r as [|r IH]; intros flat Hlen; simpl in *.
  - constructor.
  - constructor.
    + rewrite length_take. lia.
    + apply IH. rewrite length_drop. lia.
Qed.

Lemma index_select_ok (t : list W) (indices : list nat) :
  Forall (fun i => i < length t) indices ->
  exists ws, index_select t indices = Ok ws /\ length ws = length indices.
Proof.
  induction 1 as [|i rest Hi _ [ws [Hws Hl]]]; simpl.
  - by exists [].
  - destruct (lookup_lt_is_Some_2 t i Hi) as [w Hw].
    unfold getitem. rewrite Hw. simpl. rewrite Hws. simpl.
    exists (w :: ws). simpl. auto.
Qed.

Lemma data_getitem_ok d (indices : list nat) :
  aligned d ->
  Forall (fun i => i < data_len d) indices ->
  exists b, data_getitem d indices = Ok b /\
            batch_dims b = (length indices, length indices, length indices).
Proof.
  intros [H1 H2] Hidx. unfold data_len in Hidx.
  destruct (index_select_ok (inputs1 d) indices) as [a [Ha La]].
  { by rewrite H1. }
  destruct (index_select_ok (inputs2 d) indices) as [b [Hb Lb]].
  { by rewrite H2. }
  destruct (index_select_ok (targets d) indices) as [c [Hc Lc]]; [done|].
  exists (a, b, c). unfold data_getitem, batch_dims.
  rewrite Ha, Hb, Hc. simpl. by rewrite La, Lb, Lc.
Qed.

(** From batch position [bi] on, the loop yields the batches of the
    remaining rows of the schedule and ends with [StopIteration]. *)
Lemma drain_schedule d B sh dl p :
  B <> 0 ->
  length p = data_len d / B ->
  Forall (fun row => exists b, data_getitem d row = Ok b) p ->
  forall k bi fuel,
    data_len d / B - bi = k -> bi <= data_len d / B -> k < fuel ->
    exists bs,
      drain fuel (mkLoader d B sh dl (Some p) (Some bi))
      = Some (mkLoader d B sh dl (Some p) (Some (data_len d / B)), Ok bs)
      /\ Forall2 (fun row b => data_getitem d row = Ok b) (drop bi p) bs.
Proof.
  intros HB Hp Hrows. induction k as [|k IH]; intros bi fuel Hk Hbi Hfuel.
  - destruct fuel as [|fuel]; [lia|]. assert (bi = data_len d / B) as -> by lia.
    simpl. unfold next, len, floordiv. simpl.
    destruct (Nat.eqb_spec B 0) as [|_]; [done|].
    rewrite Nat.ltb_irrefl. exists []. split; [done|].
    rewrite drop_ge by lia. constructor.
  - destruct fuel as [|fuel]; [lia|].
    assert (bi < length p) as Hlt by lia.
    destruct (lookup_lt_is_Some_2 p bi Hlt) as [row Hrow].
    destruct (proj1 (Forall_lookup _ _) Hrows bi row Hrow) as [b Hb].
    destruct (IH (S bi) fuel) as [bs [Hd Hall]]; [lia..|].
    exists (b :: bs). split.
    + simpl. unfold next, len, floordiv, getitem. simpl.
      destruct (Nat.eqb_spec B 0) as [|_]; [done|].
      destruct (Nat.ltb_spec bi (data_len d / B)) as [_|]; [|lia].
      rewrite Hrow, Hb. fold (@drain W). rewrite Hd. done.
    + rewrite (drop_S _ _ _ Hrow). by constructor.
Qed.

Lemma flat_schedule_length sh N B draw :
  (sh = true -> draw ≡ₚ seq 0 N) ->
  length (flat_schedule sh (B * (N / B)) draw) = N / B * B.
Proof.
  intros Hdraw. unfold flat_schedule. destruct sh.
  - rewrite length_take, (Permutation_length (Hdraw eq_refl)), length_seq.
    pose proof (Nat.Div0.mul_div_le N B). lia.
  - rewrite length_seq. lia.
Qed.

Lemma flat_schedule_NoDup sh N B draw :
  (sh = true -> draw ≡ₚ seq 0 N) ->
  NoDup (flat_schedule sh (B * (N / B)) draw).
Proof.
  intros Hdraw. unfold flat_schedule. destruct sh.
  - apply (sublist_NoDup (take (B * (N / B)) draw) draw); [|apply sublist_take].
    rewrite (Hdraw eq_refl). apply NoDup_seq.
  - apply NoDup_seq.
Qed.

Lemma flat_schedule_valid sh N B draw i :
  (sh = true -> draw ≡ₚ seq 0 N) ->
  i ∈ flat_schedule sh (B * (N / B)) draw -> i < N.
Proof.
  intros Hdraw. unfold flat_schedule. destruct sh; intros Hi.
  - apply elem_of_take in Hi as [j [Hj _]].
    apply list_elem_of_lookup_2 in Hj. rewrite (Hdraw eq_refl) in Hj.
    apply elem_of_seq in Hj. lia.
  - apply elem_of_seq in Hi. pose proof (Nat.Div0.mul_div_le N B). lia.
Qed.

(** What [__iter__] leaves in the loader. *)
Lemma iter_schedule d B sh dl draw :
  B <> 0 ->
  (sh = true -> draw ≡ₚ seq 0 (data_len d)) ->
  let N := data_len d in
  let p := rows_of (N / B) B (flat_schedule sh (B * (N / B)) draw) in
  iter draw (mkLoader d B sh dl None None)
  = Ok (mkLoader d B sh dl (Some p) (Some 0)).
Proof.
  intros HB Hdraw N p. unfold iter, len, floordiv, np_reshape. simpl.
  destruct (Nat.eqb_spec B 0) as [|_]; [done|]. simpl.
  fold N. fold (flat_schedule sh (B * (N / B)) draw).
  rewrite (flat_schedule_length sh N B draw Hdraw), Nat.eqb_refl. done.
Qed.

Lemma concat_rows_disjoint p :
  NoDup (concat p) ->
  forall j k r1 r2 i,
    j <> k -> p !! j = Some r1 -> p !! k = Some r2 -> i ∈ r1 -> i ∉ r2.
Proof.
  induction p as [|r p IH]; intros Hnd j k r1 r2 i Hjk Hj Hk Hi1 Hi2.
  - by rewrite lookup_nil in Hj.
  - simpl in Hnd. apply NoDup_app in Hnd as (Hr & Hsep & Hrest).
    assert (forall m r', p !! m = Some r' -> i ∈ r' -> i ∈ concat p) as Hin.
    { intros m r' Hm Hi. apply list_elem_of_In, in_concat. exists r'. split.
      - apply list_elem_of_In. by eapply list_elem_of_lookup_2.
      - by apply list_elem_of_In. }
    destruct j as [|j], k as [|k]; simpl in *; simplify_eq.
    + eapply Hsep; eauto.
    + eapply Hsep; eauto.
    + eapply (IH Hrest j k); eauto.
Qed.

(** C2: for every dataset, batch size and shuffle flag, the constructor with
    [drop_last=False] raises [NotImplementedError] and so returns no loader
    from which a batch could be drawn; with [drop_last=True] it succeeds and
    stores its arguments. *)
Theorem init_rejects_partial_batches d (B : nat) (sh : bool) :
  init d B sh false = Raise NotImplementedError /\
  (forall ld, init d B sh false <> Ok ld) /\
  init d B sh true = Ok (mkLoader d B sh true None None).
Proof. unfold init; simpl. repeat split; congruence. Qed.

(** C3: for an aligned dataset of [N] windows and a batch size [B >= 1],
    [len] of the loader is [N // B], and one iteration pass ends normally
    after yielding exactly [N // B] batches whose three tensors each hold
    exactly [B] windows. *)
Theorem pass_yields_full_batches d (B : nat) (sh : bool) draw :
  aligned d ->
  1 <= B ->
  (sh = true -> draw ≡ₚ seq 0 (data_len d)) ->
  exists ld,
    init d B sh true = Ok ld /\
    len ld = Ok (data_len d / B) /\
    exists ld' bs,
      iterate_pass draw ld = Some (ld', Ok bs) /\
      length bs = data_len d / B /\
      Forall (fun b => batch_dims b = (B, B, B)) bs.
Proof.
  intros Hal HB Hdraw. eexists. split; [reflexivity|].
  assert (B <> 0) as HB0 by lia.
  split.
  { unfold len, floordiv; simpl. by destruct (Nat.eqb_spec B 0). }
  set (N := data_len d).
  set (flat := flat_schedule sh (B * (N / B)) draw).
  set (p := rows_of (N / B) B flat).
  assert (length flat = N / B * B) as Hflat
    by (apply flat_schedule_length; exact Hdraw).
  assert (Forall (fun row => exists b, data_getitem d row = Ok b /\
                                       batch_dims b = (B, B, B)) p) as Hrows.
  { pose proof (rows_of_row_length (N / B) B flat Hflat) as Hlen.
    pose proof (rows_of_concat (N / B) B flat Hflat) as Hcat.
    fold p in Hlen, Hcat. apply Forall_forall. intros row Hrow.
    destruct (data_getitem_ok d row Hal) as [b [Hb Hdim]].
    - apply Forall_forall. intros i Hi.
      apply (flat_schedule_valid sh N B draw i Hdraw). fold flat.
      rewrite <- Hcat. apply list_elem_of_In, in_concat. exists row.
      split; by apply list_elem_of_In.
    - exists b. split; [done|].
      rewrite Hdim. by rewrite (proj1 (Forall_forall _ _) Hlen row Hrow). }
  destruct (drain_schedule d B sh true p HB0) with (k := N / B) (bi := 0)
    (fuel := S N) as [bs [Hdrain Hall]].
  - apply rows_of_length.
  - eapply Forall_impl; [exact Hrows|]. intros row [b [Hb _]]. by exists b.
  - fold N. lia.
  - lia.
  - fold N. pose proof (Nat.Div0.div_le_upper_bound N B N).
    assert (N / B <= N) by (apply Nat.Div0.div_le_upper_bound; nia). lia.
  - exists (mkLoader d B sh true (Some p) (Some (N / B))), bs.
    unfold iterate_pass. rewrite (iter_schedule d B sh true draw HB0 Hdraw).
    simpl. fold N flat p. split; [exact Hdrain|].
    rewrite drop_0 in Hall. split.
    + rewrite <- (Forall2_length _ _ _ Hall). apply rows_of_length.
    + apply Forall_forall. intros b Hb.
      apply list_elem_of_lookup in Hb as [j Hj].
      destruct (Forall2_lookup_r _ _ _ _ _ Hall Hj) as [row [Hrow Hget]].
      apply list_elem_of_lookup_2 in Hrow.
      destruct (proj1 (Forall_forall _ _) Hrows row Hrow) as [b' [Hb' Hdim]].
      congruence.
Qed.

(** C10: in one iteration pass, shuffled or not, the schedule built by
    [__iter__] is the row-wise reshaping of a prefix of the drawn
    permutation (shuffled) or of [0 .. n-1] (unshuffled); the pass yields
    exactly the batches of its rows; all scheduled indices are valid window
    indices, no index occurs twice, and the index sets of two different
    batches are disjoint. *)
Theorem pass_batches_disjoint d (B : nat) (sh : bool) draw :
  aligned d ->
  1 <= B ->
  (sh = true -> draw ≡ₚ seq 0 (data_len d)) ->
  let n := B * (data_len d / B) in
  exists p ld' bs,
    iter draw (mkLoader d B sh true None None)
      = Ok (mkLoader d B sh true (Some p) (Some 0)) /\
    iterate_pass draw (mkLoader d B sh true None None) = Some (ld', Ok bs) /\
    Forall2 (fun row b => data_getitem d row = Ok b) p bs /\
    concat p = (if sh then take n draw else seq 0 n) /\
    NoDup (concat p) /\
    (forall i, i ∈ concat p -> i < data_len d) /\
    (forall j k r1 r2 i,
        j <> k -> p !! j = Some r1 -> p !! k = Some r2 -> i ∈ r1 -> i ∉ r2).
Proof.
  intros Hal HB Hdraw n.
  assert (B <> 0) as HB0 by lia.
  set (N := data_len d).
  set (flat := flat_schedule sh (B * (N / B)) draw).
  set (p := rows_of (N / B) B flat).
  assert (length flat = N / B * B) as Hflat
    by (apply flat_schedule_length; exact Hdraw).
  pose proof (rows_of_concat (N / B) B flat Hflat) as Hcat. fold p in Hcat.
  assert (forall i, i ∈ concat p -> i < N) as Hvalid.
  { intros i Hi. rewrite Hcat in Hi.
    exact (flat_schedule_valid sh N B draw i Hdraw Hi). }
  assert (NoDup (concat p)) as Hnd.
  { rewrite Hcat. apply flat_schedule_NoDup. exact Hdraw. }
  assert (Forall (fun row => exists b, data_getitem d row = Ok b) p) as Hrows.
  { apply Forall_forall. intros row Hrow.
    destruct (data_getitem_ok d row Hal) as [b [Hb _]]; [|by exists b].
    apply Forall_forall. intros i Hi. apply Hvalid.
    apply list_elem_of_In, in_concat. exists row.
    split; by apply list_elem_of_In. }
  destruct (drain_schedule d B sh true p HB0) with (k := N / B) (bi := 0)
    (fuel := S N) as [bs [Hdrain Hall]].
  - apply rows_of_length.
  - exact Hrows.
  - fold N. lia.
  - lia.
  - fold N. assert (N / B <= N) by (apply Nat.Div0.div_le_upper_bound; nia). lia.
  - exists p, (mkLoader d B sh true (Some p) (Some (N / B))), bs.
    pose proof (iter_schedule d B sh true draw HB0 Hdraw) as Hit.
    simpl in Hit. fold N flat p in Hit.
    split; [exact Hit|]. split.
    { unfold iterate_pass. rewrite Hit. simpl. exact Hdrain. }
    rewrite drop_0 in Hall. split; [exact Hall|].
    split; [exact Hcat|]. split; [exact Hnd|]. split; [exact Hvalid|].
    apply concat_rows_disjoint. exact Hnd.
Qed.

End Iterator.

Definition sample_data : CustomTensorData nat :=
  mkData [10; 11; 12; 13; 14] [20; 21; 22; 23; 24] [30; 31; 32; 33; 34].

Definition sample_draw : list nat := [3; 1; 4; 0; 2].

Lemma sample_draw_permutation : sample_draw ≡ₚ seq 0 (data_len sample_data).
Proof. apply (bool_decide_unpack _). vm_compute. exact I. Defined.

Lemma pass_yields_full_batches_witness :
  exists ld,
    init sample_data 2 true true = Ok ld /\
    len ld = Ok (data_len sample_data / 2) /\
    exists ld' bs,
      iterate_pass sample_draw ld = Some (ld', Ok bs) /\
      length bs = data_len sample_data / 2 /\
      Forall (fun b => batch_dims b = (2, 2, 2)) bs.
Proof.
  apply (pass_yields_full_batches sample_data 2 true sample_draw).
  - split; reflexivity.
  - lia.
  - intros _. exact sample_draw_permutation.
Defined.

Lemma pass_batches_disjoint_witness :
  exists p ld' bs,
    iter sample_draw (mkLoader sample_data 2 true true None None)
      = Ok (mkLoader sample_data 2 true true (Some p) (Some 0)) /\
    iterate_pass sample_draw (mkLoader sample_data 2 true true None None)
      = Some (ld', Ok bs) /\
    Forall2 (fun row b => data_getitem sample_data row = Ok b) p bs /\
    concat p = take 4 sample_draw /\
    NoDup (concat p) /\
    (forall i, i ∈ concat p -> i < 5) /\
    (forall j k r1 r2 i,
        j <> k -> p !! j = Some r1 -> p !! k = Some r2 -> i ∈ r1 -> i ∉ r2).
Proof.
  apply (pass_batches_disjoint sample_data 2 true sample_draw).
  - split; reflexivity.
  - lia.
  - intros _. exact sample_draw_permutation.
Defined.

Example sample_pass :
  iterate_pass sample_draw (mkLoader sample_data 2 true true None None)
  = Some (mkLoader sample_data 2 true true (Some [[3; 1]; [4; 0]]) (Some 2),
          Ok [([13; 11], [23; 21], [33; 31]); ([14; 10], [24; 20], [34; 30])]).
Proof. reflexivity. Qed.

End TensorLoaderFacts.
(** * Properties of [make_dataloader] *)

Module MakeLoaderFacts.
Import Py TensorLoader MakeLoader.

Lemma sliding_windows_length {V} (df : DataFrame V) (h : nat) :
  length (sliding_windows df h) = length (rows df) + 1 - h.
Proof. unfold sliding_windows. by rewrite length_map, length_seq. Qed.

Section Alignment.
Context {V : Type} (extract : extractor V).

(** What the code relies on from [dt.extract]: the number of windows is
    determined by the number of rows and the horizon. *)
Context (n_windows : nat -> nat -> nat).
Hypothesis extract_length :
  forall (df : DataFrame V) (h : nat),
    length (extract df h) = n_windows (length (rows df)) h.

Lemma select_rows (df df' : DataFrame V) (wanted : list string) :
  select df wanted = Ok df' -> length (rows df') = length (rows df).
Proof.
  unfold select. destruct (column_indices (columns df) wanted); simpl; [|done].
  intros [= <-]. simpl. by rewrite length_map.
Qed.

Lemma extract_series_lengths df target_id enc dec hh fh x_enc x_dec y :
  extract_series extract df target_id enc dec hh fh = Ok (x_enc, x_dec, y) ->
  length x_dec = length y.
Proof.
  unfold extract_series.
  destruct (select df enc) as [e|] eqn:He; simpl; [|done].
  destruct (select df dec) as [d|] eqn:Hd; simpl; [|done].
  destruct (select df [target_id]) as [t|] eqn:Ht; simpl; [|done].
  intros [= <- <- <-]. rewrite !extract_length. simpl.
  rewrite !length_drop.
  by rewrite (select_rows _ _ _ Hd), (select_rows _ _ _ Ht).
Qed.

Lemma drop_tail_length {A} (a : list A) : length (drop_tail a) = length a - 1.
Proof. unfold drop_tail. rewrite length_take. lia. Qed.

Lemma drop_head_length {A} (a : list A) : length (drop_head a) = length a - 1.
Proof. unfold drop_head. by rewrite length_drop. Qed.

(** C4: when the encoder series and the target series extracted by
    [make_dataloader] differ in length by at most one, the loader is built on
    three tensors of one common leading dimension: an encoder stack longer by
    one loses its last window, an encoder stack shorter by one makes the
    decoder and target stacks lose their first window, and equal stacks are
    kept as they are. *)
Theorem make_dataloader_aligned df target_id enc dec hh fh
    (B : nat) (sh : bool) x_enc x_dec y :
  extract_series extract df target_id enc dec hh fh = Ok (x_enc, x_dec, y) ->
  length x_enc <= length y + 1 ->
  length y <= length x_enc + 1 ->
  exists ld,
    make_dataloader extract df target_id enc dec hh fh B sh true = Ok ld /\
    aligned (dataset ld) /\
    data_len (dataset ld) = Nat.min (length x_enc) (length y) /\
    (length x_enc = S (length y) ->
       dataset ld = mkData (drop_tail x_enc) x_dec y) /\
    (S (length x_enc) = length y ->
       dataset ld = mkData x_enc (drop_head x_dec) (drop_head y)) /\
    (length x_enc = length y -> dataset ld = mkData x_enc x_dec y).
Proof.
  intros Hs Hup Hlow.
  pose proof (extract_series_lengths _ _ _ _ _ _ _ _ _ Hs) as Hdec.
  unfold make_dataloader. rewrite Hs. simpl. unfold align.
  destruct (Nat.ltb_spec (length y) (length x_enc)) as [Hgt|Hle].
  - eexists. split; [reflexivity|]. unfold aligned, data_len. simpl.
    rewrite drop_tail_length. repeat split; intros; try reflexivity; lia.
  - destruct (Nat.ltb_spec (length x_enc) (length y)) as [Hlt|Hge].
    + eexists. split; [reflexivity|]. unfold aligned, data_len. simpl.
      rewrite !drop_head_length. repeat split; intros; try reflexivity; lia.
    + eexists. split; [reflexivity|]. unfold aligned, data_len. simpl.
      repeat split; intros; try reflexivity; lia.
Qed.

End Alignment.

Lemma make_dataloader_aligned_witness :
  exists ld,
    make_dataloader sliding_windows sample_frame "load" ["load"; "temp"] ["temp"]
      2 1 2 false true = Ok ld /\
    aligned (dataset ld) /\
    data_len (dataset ld) = 4.
Proof.
  destruct (make_dataloader_aligned sliding_windows (fun T h => T + 1 - h)
              sliding_windows_length sample_frame "load" ["load"; "temp"]
              ["temp"] 2 1 2 false _ _ _ eq_refl)
    as [ld (Hld & Hal & Hlen & _)]; [simpl; lia .. |].
  exists ld. repeat split; try apply Hal; [exact Hld | exact Hlen].
Defined.

(** With an extractor that returns one encoder window too many, the last
    encoder window is cut. *)
Example make_dataloader_cuts_encoder :
  dataset <$> make_dataloader long_encoder_extract sample_frame "load"
                ["load"; "temp"] ["temp"] 2 1 2 false true
  = Ok (mkData [[[1; 10]; [2; 20]]] [[[30]]] [[[3]]]).
Proof. reflexivity. Qed.

(** The end-to-end scenario of the specification: 200 rows with a history
    horizon of 24 and a forecast horizon of 12 give 165 windows; with batches
    of 8 an unshuffled pass yields 20 batches, the first starting at window 0
    and the last ending at window 159, so the last 5 windows are dropped. *)
Example scenario_200_rows :
  match make_dataloader sliding_windows scenario_frame "load" ["load"] ["temp"]
          24 12 8 false true with
  | Ok ld =>
      data_len (dataset ld) = 165 /\
      len ld = Ok 20 /\
      match iterate_pass [] ld with
      | Some (ld', Ok bs) =>
          length bs = 20 /\
          permutation ld' = Some (rows_of 20 8 (seq 0 160))
      | _ => False
      end
  | Raise _ => False
  end.
Proof. vm_compute. repeat split; reflexivity. Qed.

End MakeLoaderFacts.
(** * Properties of the scoring functions *)

Module MetricsFacts.
Import Py Metrics.
Local Open Scope R_scope.
Local Arguments pow _ _ : simpl never.

(** ** Sums *)

Lemma Rsum_app (l1 l2 : list R) : Rsum (l1 ++ l2) = Rsum l1 + Rsum l2.
Proof. unfold Rsum. induction l1 as [|x l1 IH]; simpl; [lra | rewrite IH; lra]. Qed.

Lemma Rsum_ext {A} (f g : A -> R) (l : list A) :
  (forall a, a ∈ l -> f a = g a) -> Rsum (map f l) = Rsum (map g l).
Proof.
  unfold Rsum. induction l as [|a l IH]; intros Hfg; simpl; [done|].
  rewrite (Hfg a) by constructor. rewrite IH; [done|].
  intros b Hb. apply Hfg. by constructor.
Qed.

Lemma Rsum_bounds {A} (f : A -> R) (l : list A) (lo hi : R) :
  (forall a, a ∈ l -> lo <= f a <= hi) ->
  lo * INR (length l) <= Rsum (map f l) <= hi * INR (length l).
Proof.
  unfold Rsum. induction l as [|a l IH]; intros Hb.
  - simpl. lra.
  - change (length (a :: l)) with (S (length l)). rewrite S_INR. simpl.
    pose proof (Hb a ltac:(constructor)).
    assert (forall b, b ∈ l -> lo <= f b <= hi) as Hl
      by (intros b Hin; apply Hb; by constructor).
    specialize (IH Hl). lra.
Qed.

Lemma Rsum_bind {A B} (g : B -> R) (f : A -> list B) (l : list A) :
  Rsum (map g (l ≫= f)) = Rsum (map (fun a => Rsum (map g (f a))) l).
Proof.
  induction l as [|a l IH]; [done|].
  rewrite bind_cons, map_app, Rsum_app, IH. done.
Qed.

Lemma length_bind_const {A B} (f : A -> list B) (l : list A) (c : nat) :
  (forall a, length (f a) = c) -> length (l ≫= f) = (length l * c)%nat.
Proof.
  intros Hc. induction l as [|a l IH]; [done|].
  rewrite bind_cons, length_app, IH, Hc. simpl. lia.
Qed.

Lemma sum_upto_zero (n : nat) (f : nat -> R) :
  (forall i, f i = 0) -> sum_upto n f = 0.
Proof.
  intros Hf. unfold sum_upto, Rsum.
  induction (seq 0 n) as [|a l IH]; simpl; [done|]. rewrite Hf, IH. lra.
Qed.

Lemma mean_bounds {A} (f : A -> R) (l : list A) (lo hi : R) :
  l <> [] ->
  (forall a, a ∈ l -> lo <= f a <= hi) ->
  lo <= mean (map f l) <= hi.
Proof.
  intros Hne Hb. unfold mean. rewrite length_map.
  pose proof (Rsum_bounds f l lo hi Hb) as [H1 H2].
  assert (0 < INR (length l)) as Hpos.
  { apply lt_0_INR. destruct l; [done | simpl; lia]. }
  assert (Rsum (map f l) / INR (length l) * INR (length l) = Rsum (map f l))
    as Hcancel by (field; lra).
  split; apply Rmult_le_reg_r with (INR (length l)); try exact Hpos;
    rewrite Hcancel; lra.
Qed.

(** ** Shapes *)

Lemma same_shape_refl {A} (t : tensor A) : same_shape t t = true.
Proof. unfold same_shape. by apply bool_decide_eq_true_2. Qed.

Lemma same_shape_eq {A B} (a : tensor A) (b : tensor B) :
  shape a = shape b -> same_shape a b = true.
Proof. intros H. unfold same_shape. by apply bool_decide_eq_true_2. Qed.

Lemma torch_mean_positions (t : tensor R) :
  torch_mean t
  = mean (map (fun '(i, h, k) => entry t i h k)
            (positions (dim0 t) (dim1 t) (dim2 t))).
Proof.
  unfold torch_mean, mean, torch_sum, sum_upto, positions. f_equal.
  - rewrite Rsum_bind. apply Rsum_ext. intros i _.
    rewrite Rsum_bind. apply Rsum_ext. intros h _.
    rewrite Rsum_bind. apply Rsum_ext. intros k _.
    simpl. unfold Rsum. simpl. lra.
  - f_equal. rewrite length_map.
    rewrite (length_bind_const _ _ (dim1 t * dim2 t)), length_seq; [lia|].
    intros i. rewrite (length_bind_const _ _ (dim2 t)), length_seq; [done|].
    intros h. rewrite (length_bind_const _ _ 1%nat), length_seq; [lia|done].
Qed.

(** ** Unsupported per-horizon forms *)

(** C5 (amended): with [total=False], [pinball_loss] raises
    [NotImplementedError] for every target, prediction list and quantile
    list; [crps_gaussian] raises [NotImplementedError] when the prediction
    list has exactly two entries and [AssertionError] otherwise, its length
    assertion coming first; neither returns a value. *)
Theorem per_horizon_form_unsupported (normal_cdf : R -> R)
    (target : tensor R) (predictions : list (tensor R)) (quantiles : list R) :
  pinball_loss target predictions quantiles false = Raise NotImplementedError /\
  crps_gaussian normal_cdf target predictions false
  = (if bool_decide (length predictions = 2%nat)
     then Raise NotImplementedError else Raise AssertionError) /\
  returned (pinball_loss target predictions quantiles false) = false /\
  returned (crps_gaussian normal_cdf target predictions false) = false.
Proof.
  split; [reflexivity|].
  assert (crps_gaussian normal_cdf target predictions false
          = (if bool_decide (length predictions = 2%nat)
             then Raise NotImplementedError else Raise AssertionError)) as H.
  { unfold crps_gaussian.
    destruct predictions as [|a [|b [|c rest]]]; reflexivity. }
  split; [exact H|]. split; [reflexivity|].
  rewrite H. by destruct (bool_decide _).
Qed.

(** C5 as stated fails: on a list of three predictions (an upper, a lower
    and a median forecast, say) [crps_gaussian] with [total=False] raises
    [AssertionError], not [NotImplementedError]. *)
Lemma crps_gaussian_three_predictions :
  crps_gaussian (fun _ => 0) (full 1 1 1 0)
    [full 1 1 1 1; full 1 1 1 (-1); full 1 1 1 0] false
  = Raise AssertionError /\
  crps_gaussian (fun _ => 0) (full 1 1 1 0)
    [full 1 1 1 1; full 1 1 1 (-1); full 1 1 1 0] false
  <> Raise NotImplementedError.
Proof. split; [reflexivity | discriminate]. Qed.

(** ** Gaussian negative log-likelihood *)

(** C6: for a target, an expected value and a log-variance of one shape
    [[N, H, K]], [nll_gauss] with [total=True] returns the mean over all
    positions of [(target - mu)^2 / (2 e^(log_variance)) + 0.5 log_variance],
    and with [total=False] returns, for every forecast step (and target
    variable), the mean of the same expression over the batch dimension. *)
Theorem nll_gauss_formula (target mu log_variance : tensor R) :
  shape mu = shape target ->
  shape log_variance = shape target ->
  let term i h k :=
    gauss_nll_term (entry target i h k) (entry mu i h k)
      (entry log_variance i h k) in
  nll_gauss target [mu; log_variance] true
  = Ok (Scalar (mean (map (fun '(i, h, k) => term i h k)
                        (positions (dim0 target) (dim1 target) (dim2 target)))))
  /\
  nll_gauss target [mu; log_variance] false
  = Ok (PerStep
          (tabulate (dim1 target) (dim2 target)
             (fun h k => mean (map (fun i => term i h k)
                                 (seq 0 (dim0 target)))))).
Proof.
  intros Hmu Hlv term.
  destruct target as [N H K t], mu as [N1 H1 K1 m], log_variance as [N2 H2 K2 v].
  unfold shape in Hmu, Hlv. simpl in Hmu, Hlv.
  injection Hmu as -> -> ->. injection Hlv as -> -> ->.
  unfold nll_gauss. simpl. unfold tzip, tmap. simpl.
  repeat (rewrite same_shape_eq by reflexivity; simpl).
  split.
  - unfold reduce. rewrite torch_mean_positions. reflexivity.
  - unfold reduce, torch_mean_dim0, mean, sum_upto. simpl.
    unfold tabulate. do 2 f_equal.
    apply map_ext. intros h. apply map_ext. intros k.
    by rewrite length_map, length_seq.
Qed.

Lemma nll_gauss_formula_witness :
  nll_gauss (full 2 1 1 3) [full 2 1 1 1; full 2 1 1 0] true
  = Ok (Scalar (mean (map (fun '(i, h, k) => gauss_nll_term 3 1 0)
                        (positions 2 1 1))))
  /\
  nll_gauss (full 2 1 1 3) [full 2 1 1 1; full 2 1 1 0] false
  = Ok (PerStep
          (tabulate 1 1
             (fun h k => mean (map (fun i => gauss_nll_term 3 1 0) (seq 0 2))))).
Proof.
  apply (nll_gauss_formula (full 2 1 1 3) (full 2 1 1 1) (full 2 1 1 0));
    reflexivity.
Defined.

(** ** Mean squared error and its root *)

(** C8: for a target with at least one entry, [mse(target, [target])] is 0
    (the zero vector in the per-step form); on every input [rmse] is the
    square root of [mse], entry by entry in the per-step form and with the
    same exception when [mse] raises; both return a value exactly when the
    first prediction has the shape of the target. *)
Theorem mse_zero_rmse_sqrt (target prediction : tensor R)
    (predictions more : list (tensor R)) (total : bool) :
  (MetricsMore.nonempty target ->
   mse target [target] true = Ok (Scalar 0) /\
   mse target [target] false
   = Ok (PerStep (tabulate (dim1 target) (dim2 target) (fun _ _ => 0)))) /\
  rmse target predictions total = score_sqrt <$> mse target predictions total /\
  returned (mse target (prediction :: more) total)
  = same_shape prediction target.
Proof.
  assert (forall i h k : nat,
             (entry target i h k - entry target i h k) ^ 2 = 0) as Hzero
    by (intros; ring).
  split; [intros _; split | split].
  - unfold mse. simpl. rewrite same_shape_refl. simpl.
    unfold tzip. rewrite same_shape_refl. simpl.
    unfold reduce, torch_mean, torch_sum. simpl.
    rewrite sum_upto_zero.
    + do 2 f_equal. unfold Rdiv. ring.
    + intros i. apply sum_upto_zero. intros h. apply sum_upto_zero.
      intros k. apply Hzero.
  - unfold mse. simpl. rewrite same_shape_refl. simpl.
    unfold tzip. rewrite same_shape_refl. simpl.
    unfold reduce, torch_mean_dim0, tabulate. simpl. do 2 f_equal.
    apply map_ext. intros h. apply map_ext. intros k.
    rewrite sum_upto_zero by (intros i; apply Hzero). unfold Rdiv. ring.
  - unfold rmse, mse. destruct (getitem predictions 0) as [p|e]; simpl; [|done].
    destruct (same_shape p target) eqn:Hs; simpl; [|done].
    destruct (tzip Rminus target p); reflexivity.
  - unfold mse. simpl. destruct (same_shape prediction target) eqn:Hs; simpl; [|done].
    unfold tzip. unfold same_shape in *.
    apply bool_decide_eq_true_1 in Hs.
    rewrite bool_decide_eq_true_2 by done. reflexivity.
Qed.

Lemma mse_zero_rmse_sqrt_witness :
  MetricsMore.nonempty (full 2 3 1 5) /\
  mse (full 2 3 1 5) [full 2 3 1 5] true = Ok (Scalar 0) /\
  mse (full 2 3 1 5) [full 2 3 1 5] false
  = Ok (PerStep [[0]; [0]; [0]]) /\
  rmse (full 2 3 1 5) [full 2 3 1 4] true
  = score_sqrt <$> mse (full 2 3 1 5) [full 2 3 1 4] true /\
  returned (mse (full 2 3 1 5) [full 2 3 1 4] true)
  = same_shape (full 2 3 1 4) (full 2 3 1 5).
Proof.
  assert (MetricsMore.nonempty (full 2 3 1 5)) as Hne
    by (repeat split; simpl; lia).
  split; [exact Hne|].
  destruct (mse_zero_rmse_sqrt (full 2 3 1 5) (full 2 3 1 4)
              [full 2 3 1 4] [] true) as (Hzero & Hroot & Hret).
  destruct (Hzero Hne) as [Htotal Hsteps].
  split; [exact Htotal|]. split; [exact Hsteps|]. split; [exact Hroot|].
  exact Hret.
Defined.

(** ** Prediction interval coverage *)

Lemma covered_b_spec (t upper lower : R) :
  covered_b t upper lower = true <-> covered t upper lower.
Proof.
  unfold covered_b, covered, Rgt_b, Rlt_b, Rle_b.
  destruct (Rlt_dec lower t), (Rle_dec t upper); simpl; split;
    try tauto; try discriminate; intros [? ?]; contradiction.
Qed.

Lemma count_upto_le (n : nat) (f : nat -> bool) : (count_upto n f <= n)%nat.
Proof.
  unfold count_upto.
  pose proof (length_filter (fun i => f i = true) (seq 0 n)) as Hle.
  by rewrite length_seq in Hle.
Qed.

Lemma count_upto_all (n : nat) (f : nat -> bool) :
  (forall i, (i < n)%nat -> f i = true) -> count_upto n f = n.
Proof.
  intros Hall. unfold count_upto.
  transitivity (length (seq 0 n)); [f_equal | apply length_seq].
  assert (forall l : list nat, (forall i, i ∈ l -> f i = true) ->
            filter (fun i => f i = true) l = l) as Hfilter.
  { induction l as [|a l IH]; intros Hl; [done|].
    rewrite filter_cons_True by (apply Hl; constructor).
    f_equal. apply IH. intros i Hi. apply Hl. by constructor. }
  apply Hfilter. intros i Hi. apply Hall. apply elem_of_seq in Hi. lia.
Qed.

Lemma step_coverage_bounds (N c : nat) :
  (1 <= N)%nat -> (c <= N)%nat -> 0 <= 100 * INR c / INR N <= 100.
Proof.
  intros HN Hc.
  assert (0 < INR N) as Hpos by (apply lt_0_INR; lia).
  pose proof (pos_INR c) as Hc0. apply le_INR in Hc.
  assert (100 * INR c / INR N * INR N = 100 * INR c) as Hcancel
    by (field; lra).
  split; apply Rmult_le_reg_r with (INR N); try exact Hpos;
    rewrite Hcancel; nra.
Qed.

(** C7 (amended): for a target with a single target variable, at least one
    window and at least one horizon step, and upper and lower predictions of
    the same shape, [picp] counts a target as covered exactly when it lies in
    [(lower, upper]], returns per horizon step 100 times the covered share of
    the batch, and with [total=True] the mean of these values over the steps;
    that value lies in [[0, 100]] and is exactly 100 when every target lies
    strictly between its lower and upper bound. *)
Theorem picp_single_target (target upper lower : tensor R) :
  shape upper = shape target ->
  shape lower = shape target ->
  dim2 target = 1%nat ->
  (1 <= dim0 target)%nat ->
  (1 <= dim1 target)%nat ->
  let N := dim0 target in
  let H := dim1 target in
  let inside i h :=
    covered_b (entry target i h 0) (entry upper i h 0) (entry lower i h 0) in
  let step h := 100 * INR (count_upto N (fun i => inside i h)) / INR N in
  (forall i h, inside i h = true <->
               covered (entry target i h 0) (entry upper i h 0)
                 (entry lower i h 0)) /\
  picp target [upper; lower] true = Ok (Scalar (mean (map step (seq 0 H)))) /\
  picp target [upper; lower] false
  = Ok (PerStep (tabulate H 1 (fun h _ => step h))) /\
  0 <= mean (map step (seq 0 H)) <= 100 /\
  ((forall i h, (i < N)%nat -> (h < H)%nat ->
      entry lower i h 0 < entry target i h 0 < entry upper i h 0) ->
   mean (map step (seq 0 H)) = 100).
Proof.
  intros Hup Hlow HK HN HH N H inside step.
  assert (seq 0 H <> []) as Hne.
  { subst H. destruct (dim1 target); [lia | discriminate]. }
  split; [intros i h; apply covered_b_spec|].
  assert (picp target [upper; lower] false
          = Ok (PerStep (tabulate H 1 (fun h _ => step h)))) as Hsteps.
  { unfold picp. simpl. unfold tzip.
    rewrite (same_shape_eq target lower) by done.
    rewrite (same_shape_eq target upper) by done. simpl.
    rewrite same_shape_eq by reflexivity. simpl.
    unfold torch_sum_dim0_bool, tabulate. simpl. rewrite HK. simpl.
    do 2 f_equal. rewrite map_map. reflexivity. }
  split; [|split; [exact Hsteps|]].
  - revert Hsteps. unfold picp. simpl.
    destruct (tzip Rgt_b target lower) as [above|]; simpl; [|done].
    destruct (tzip Rle_b target upper) as [below|]; simpl; [|done].
    destruct (tzip andb above below) as [ins|]; simpl; [|done].
    intros [= ->]. do 2 f_equal. unfold mean, matrix_sum, tabulate.
    rewrite !map_map, length_map, length_seq. fold H. f_equal.
    apply Rsum_ext. intros h _. unfold Rsum. simpl. lra.
  - split.
    + apply mean_bounds; [exact Hne|]. intros h _. unfold step.
      apply step_coverage_bounds; [exact HN | apply count_upto_le].
    + intros Hall.
      assert (100 <= mean (map step (seq 0 H)) <= 100) as Hm; [|lra].
      apply mean_bounds; [exact Hne|]. intros h Hh. unfold step.
      apply elem_of_seq in Hh.
      rewrite count_upto_all.
      * assert (0 < INR N) as Hpos by (apply lt_0_INR; lia).
        assert (100 * INR N / INR N = 100) as -> by (field; lra). lra.
      * intros i Hi. apply covered_b_spec. unfold covered.
        destruct (Hall i h) as [? ?]; [lia..|]. lra.
Qed.

Lemma picp_single_target_witness :
  picp (full 2 3 1 0) [full 2 3 1 1; full 2 3 1 (-1)] true
  = Ok (Scalar 100).
Proof.
  destruct (picp_single_target (full 2 3 1 0) (full 2 3 1 1) (full 2 3 1 (-1)))
    as (_ & Htotal & _ & _ & Hall);
    [reflexivity | reflexivity | reflexivity | simpl; lia | simpl; lia |].
  rewrite Htotal. rewrite Hall; [reflexivity|].
  intros i h _ _. simpl. lra.
Defined.

(** C7 as stated fails for a target with two target variables: with every
    target strictly inside its bounds, [picp] returns 200, which is neither
    100 nor within [[0, 100]]. *)
Lemma picp_two_target_variables :
  picp (full 1 1 2 0) [full 1 1 2 1; full 1 1 2 (-1)] true = Ok (Scalar 200) /\
  (forall i h k : nat,
      entry (full 1 1 2 (-1)) i h k < entry (full 1 1 2 0) i h k
      < entry (full 1 1 2 1) i h k) /\
  ~ (0 <= 200 <= 100).
Proof.
  split; [|split; [intros; simpl; lra | lra]].
  unfold picp. simpl.
  assert (Rgt_b 0 (-1) && Rle_b 0 1 = true) as Hin.
  { unfold Rgt_b, Rlt_b, Rle_b.
    destruct (Rlt_dec (-1) 0), (Rle_dec 0 1); try reflexivity; lra. }
  rewrite (count_upto_all 1 _ (fun _ _ => Hin)).
  unfold matrix_sum, Rsum. simpl. do 2 f_equal. lra.
Qed.

End MetricsFacts.
(** * Properties of the training loop *)

Module TrainFacts.
Import Py Train.

(** The bookkeeping of [final_epoch_loss] does not influence the training
    of an epoch. *)
Lemma train_fold_final `{L : Learner} (len : nat) (batches : list Batch)
    (acc acc' : Net * Aux * Q * Q) :
  acc.1 = acc'.1 ->
  (foldl (fun '(n, a, epoch_loss, _) b =>
            let '(n', a', loss) := train_step n a b in
            let epoch_loss' := (epoch_loss + per_batch loss len)%Q in
            (n', a', epoch_loss', epoch_loss')) acc batches).1
  = (foldl (fun '(n, a, epoch_loss, _) b =>
              let '(n', a', loss) := train_step n a b in
              let epoch_loss' := (epoch_loss + per_batch loss len)%Q in
              (n', a', epoch_loss', epoch_loss')) acc' batches).1.
Proof.
  revert acc acc'. induction batches as [|b batches IH]; intros acc acc' Hacc.
  - exact Hacc.
  - simpl. apply IH.
    destruct acc as [[[n a] e] f], acc' as [[[n1 a1] e1] f1].
    simpl in Hacc. injection Hacc as <- <- <-.
    by destruct (train_step n a b) as [[n' a'] loss].
Qed.

Lemma train_batches_final `{L : Learner} (batches : list Batch)
    (n : Net) (a : Aux) (f f' : Q) :
  (train_batches batches n a f).1 = (train_batches batches n a f').1.
Proof. unfold train_batches. by apply train_fold_final. Qed.

(** With its keys present, the reporting code before the loop returns. *)
Lemma open_log_returns (rep : Reporting) :
  keys_present rep -> open_log rep = Ok tt.
Proof.
  intros ([x Hx] & [t Ht] & _). unfold open_log.
  destruct (logging_tb rep); [|done]. rewrite Hx. simpl.
  destruct x; [|done]. by rewrite Ht.
Qed.

(** With its keys present and [t1_stop] assigned, the reporting code after
    the loop returns; the line for [log_data] holds the values of the run. *)
Lemma reporting_returns `{L : Learner} (rep : Reporting) (st : loop_state)
    (s : Q) :
  keys_present rep ->
  is_Some (t1_stop st) ->
  relative_score rep = Ok tt /\
  log_hparams rep st = Ok tt /\
  exists line,
    log_run rep st s = Ok line /\
    (line = None \/
     line = Some (final_epoch_loss st, val_loss_min (early_stopping st), s)).
Proof.
  intros ([x Hx] & [t Ht] & [b Hb] & [h Hh]) [c Hc].
  unfold relative_score, log_hparams, log_run, logs_once.
  rewrite Hx, Ht, Hb, Hh, Hc. simpl. repeat split.
  - destruct (logging_tb rep); [|done]. by destruct x.
  - destruct x; simpl; [destruct t; simpl|]; eauto.
Qed.

Section EarlyStop.
Context `{L : Learner} (data : Loaders) (net0 : Net).
Context (patience0 : nat) (delta0 : Q).
Hypothesis delta_nonneg : (0 <= delta0)%Q.

Local Abbreviation loss_at := (loss_of_epoch data net0).
Local Abbreviation net_at := (net_of_epoch data net0).

Local Abbreviation tracks := (tracks_best data net0 delta0).
Local Abbreviation controller := (controller_after patience0 delta0 data net0).
Local Abbreviation signal := (signals patience0 delta0 data net0).
Local Abbreviation invariant := (loop_invariant patience0 delta0 data net0).

Lemma controller_delta (e : nat) : delta (controller e) = delta0.
Proof.
  induction e as [|e IH]; [reflexivity|]. simpl.
  unfold early_stopping_call. by destruct (below _ _).
Qed.

(** The controller holds the best epoch so far, whether or not it has
    signalled a stop. *)
Lemma controller_tracks_best (e : nat) : tracks e (controller e).
Proof.
  induction e as [|e IH]; [left; by split|]. right. simpl.
  unfold early_stopping_call. rewrite controller_delta.
  destruct (below (loss_at e) (minus_margin (val_loss_min (controller e)) delta0))
    eqn:Himp; simpl.
  - exists e. repeat split; [lia|].
    intros j Hj. destruct (decide (j = e)) as [->|Hne]; [Lqa.lra|].
    destruct IH as [[-> _]|(k & Hk & Hmin & _ & Hall)]; [lia|].
    rewrite Hmin in Himp. simpl in Himp.
    destruct (Qlt_le_dec _ _) as [Hlt|]; [|done].
    specialize (Hall j ltac:(lia)). Lqa.lra.
  - destruct IH as [[_ Hinf]|(k & Hk & Hmin & Hck & Hall)].
    { rewrite Hinf in Himp. discriminate. }
    rewrite Hmin in Himp. simpl in Himp.
    destruct (Qlt_le_dec _ _) as [|Hge]; [done|].
    exists k. repeat split; [lia | done | done |].
    intros j Hj. destruct (decide (j = e)) as [->|Hne]; [exact Hge|].
    apply Hall. lia.
Qed.

(** The call in which the controller first signals a stop is not one that
    improves on the best loss: it leaves the best loss and the checkpoint as
    they were, so both stem from an epoch before. *)
Lemma first_signal_keeps_best (e : nat) :
  first_signal patience0 delta0 data net0 e ->
  exists k, k < e /\
    val_loss_min (controller (S e)) = Finite (loss_at k) /\
    checkpoint (controller (S e)) = Some (net_at k) /\
    forall j, j <= e -> (loss_at k - delta0 <= loss_at j)%Q.
Proof.
  intros [Hsig Hfirst]. unfold signals in *.
  assert (early_stop (controller e) = false) as Hbefore.
  { destruct e as [|e]; [reflexivity|]. apply Hfirst. lia. }
  pose proof (controller_tracks_best e) as Hbest.
  simpl in Hsig. unfold early_stopping_call in Hsig.
  rewrite controller_delta in Hsig.
  simpl. unfold early_stopping_call. rewrite controller_delta.
  destruct (below (loss_at e) (minus_margin (val_loss_min (controller e)) delta0))
    eqn:Himp; simpl in *; [congruence|].
  destruct Hbest as [[_ Hinf]|(k & Hk & Hmin & Hck & Hall)].
  { rewrite Hinf in Himp. discriminate. }
  rewrite Hmin in Himp. simpl in Himp.
  destruct (Qlt_le_dec _ _) as [|Hge]; [done|].
  exists k. repeat split; [done..|].
  intros j Hj. destruct (decide (j = e)) as [->|Hne]; [exact Hge|].
  apply Hall. lia.
Qed.

(** One epoch of the loop calls the controller with the loss and the
    parameters of that epoch. *)
Lemma epoch_step (epoch : nat) (st : loop_state) :
  invariant epoch st ->
  exists net' aux' epoch_loss final_loss,
    train_batches (train_pass data epoch) (net st) (aux st)
      (final_epoch_loss st) = (net', aux', epoch_loss, final_loss) /\
    state_after data net0 (S epoch) = (net', aux') /\
    early_stopping_call (early_stopping st)
      (validate (valid_pass data epoch) net') net' = controller (S epoch).
Proof.
  intros (Hstate & Hes & Hrun).
  destruct (train_batches (train_pass data epoch) (net st) (aux st)
              (final_epoch_loss st))
    as [[[net' aux'] epoch_loss] final_loss] eqn:Htrain.
  exists net', aux', epoch_loss, final_loss. split; [reflexivity|].
  assert (state_after data net0 (S epoch) = (net', aux')) as Hnext.
  { simpl. rewrite <- Hstate.
    pose proof (train_batches_final (train_pass data epoch) (net st)
                  (aux st) 0%Q (final_epoch_loss st)) as Hsame.
    rewrite Htrain in Hsame.
    destruct (train_batches (train_pass data epoch) (net st) (aux st) 0%Q)
      as [[[n1 a1] e1] f1].
    simpl in Hsame. by injection Hsame as -> -> _. }
  split; [exact Hnext|].
  assert (net_at epoch = net') as Hnet
    by (unfold net_of_epoch; by rewrite Hnext).
  simpl. rewrite Hes. unfold loss_of_epoch. by rewrite Hnet.
Qed.

(** The loop leaves in the epoch in which the controller first signals a
    stop, with the checkpoint of the controller as the parameters. *)
Lemma epoch_loop_stops (remaining : nat) :
  forall (epoch e : nat) (st : loop_state),
    invariant epoch st ->
    epoch <= e < epoch + remaining ->
    signal e = true ->
    (forall j, epoch <= j < e -> signal j = false) ->
    exists best aux' final_loss,
      checkpoint (controller (S e)) = Some best /\
      epoch_loop data remaining epoch st
      = Ok (mkLoop best aux' (controller (S e)) final_loss (S e) (Some e)).
Proof.
  induction remaining as [|remaining IH]; intros epoch e st Hinv He Hsig Hfirst;
    [lia|].
  destruct (epoch_step epoch st Hinv)
    as (net' & aux' & epoch_loss & final_loss & Htrain & Hnext & Hcall).
  simpl. rewrite Htrain, Hcall.
  destruct (decide (e = epoch)) as [->|Hne].
  - unfold signals in Hsig. rewrite Hsig.
    pose proof (controller_tracks_best (S epoch))
      as [[? _]|(k & _ & _ & Hck & _)]; [lia|].
    rewrite Hck. by exists (net_at k), aux', final_loss.
  - pose proof (Hfirst epoch ltac:(lia)) as Hgo. unfold signals in Hgo.
    rewrite Hgo.
    apply IH; [|lia|done|intros j Hj; apply Hfirst; lia].
    split; [|split]; [by rewrite Hnext | done | done].
Qed.

(** While the controller signals no stop, the loop runs every epoch. *)
Lemma epoch_loop_runs (remaining : nat) :
  forall (epoch : nat) (st : loop_state),
    invariant epoch st ->
    (forall j, epoch <= j < epoch + remaining -> signal j = false) ->
    exists aux' final_loss,
      epoch_loop data remaining epoch st
      = Ok (mkLoop (state_after data net0 (epoch + remaining)).1 aux'
              (controller (epoch + remaining)) final_loss (epoch + remaining)
              (match remaining with
               | O => t1_stop st
               | S r => Some (epoch + r)
               end)).
Proof.
  induction remaining as [|remaining IH]; intros epoch st Hinv Hquiet.
  - destruct Hinv as (Hstate & Hes & Hrun). rewrite Nat.add_0_r. simpl.
    exists (aux st), (final_epoch_loss st).
    destruct st as [n a es f r t]. simpl in *. subst.
    by rewrite <- Hstate.
  - destruct (epoch_step epoch st Hinv)
      as (net' & aux' & epoch_loss & final_loss & Htrain & Hnext & Hcall).
    simpl. rewrite Htrain, Hcall.
    pose proof (Hquiet epoch ltac:(lia)) as Hgo. unfold signals in Hgo.
    rewrite Hgo.
    destruct (IH (S epoch)
                (mkLoop net' aux' (controller (S epoch)) final_loss (S epoch)
                   (Some epoch)))
      as (a & f & Hloop).
    { split; [|split]; [by rewrite Hnext | done | done]. }
    { intros j Hj. apply Hquiet. lia. }
    rewrite Hloop. exists a, f.
    replace (S epoch + remaining) with (epoch + S remaining) by lia.
    do 2 f_equal. destruct remaining; simpl; f_equal; lia.
Qed.

Lemma initial_invariant :
  invariant 0
    (mkLoop (init_uniform net0) (set_optimizer net0)
       (early_stopping_new patience0 delta0) 0%Q 0 None).
Proof. by repeat split. Qed.

(** Once the loop has been left with [t1_stop] assigned, [train] returns
    what the loop has left. *)
Lemma train_after_loop (rep : Reporting) (max_epochs : nat) (st : loop_state) :
  probe_pass data <> [] ->
  keys_present rep ->
  epoch_loop data max_epochs 0
    (mkLoop (init_uniform net0) (set_optimizer net0)
       (early_stopping_new patience0 delta0) 0%Q 0 None) = Ok st ->
  is_Some (t1_stop st) ->
  exists line,
    train patience0 delta0 rep data net0 max_epochs
    = Ok (mkTrained (net st) line (val_loss_min (early_stopping st))
            (performance_test (net st) (test_pass data))
            (early_stop (early_stopping st)) (epochs_run st)).
Proof.
  intros Hprobe Hkeys Hloop Hclock.
  destruct (reporting_returns rep st
              (performance_test (net st) (test_pass data)) Hkeys Hclock)
    as (Hrel & Hhp & line & Hlog & _).
  exists line. unfold train.
  destruct (probe_pass data) as [|first rest]; [done|].
  cbv beta iota zeta delta [mbind result_bind Py.bind].
  rewrite (open_log_returns rep Hkeys), Hloop, Hrel, Hlog, Hhp. reflexivity.
Qed.


(** Without a signal from the controller, [train] runs all [max_epochs]
    epochs and returns the parameters of the last one. *)
Lemma train_without_stop (rep : Reporting) (max_epochs : nat) :
  probe_pass data <> [] ->
  keys_present rep ->
  0 < max_epochs ->
  (forall j, j < max_epochs -> signal j = false) ->
  exists r,
    train patience0 delta0 rep data net0 max_epochs = Ok r /\
    stopped r = false /\
    epochs r = max_epochs /\
    trained_net r = (state_after data net0 max_epochs).1 /\
    score r = performance_test (trained_net r) (test_pass data).
Proof.
  intros Hprobe Hkeys Hpos Hquiet.
  destruct (epoch_loop_runs max_epochs 0 _ initial_invariant
              ltac:(intros; apply Hquiet; lia))
    as (aux' & final_loss & Hloop).
  simpl in Hloop. destruct max_epochs as [|m]; [lia|].
  destruct (train_after_loop rep (S m) _ Hprobe Hkeys Hloop)
    as [line Htrain]; [by eexists|].
  eexists. split; [exact Htrain|]. simpl. repeat split.
  exact (Hquiet m ltac:(lia)).
Qed.

(** With [max_epochs = 0] the loop body never runs and [t1_stop] stays
    unassigned: [train] raises where the reporting code reads it, and returns
    the freshly initialised network only when nothing is reported. *)
Lemma train_without_epochs (rep : Reporting) :
  probe_pass data <> [] ->
  keys_present rep ->
  match train patience0 delta0 rep data net0 0 with
  | Ok r => reads_t1_stop rep = false /\ trained_net r = init_uniform net0
  | Raise e => reads_t1_stop rep = true /\ e = UnboundLocalError
  end.
Proof.
  intros Hprobe ([x Hx] & [t Ht] & [b Hb] & [h Hh]).
  unfold train, open_log, relative_score, log_run, logs_once, log_hparams,
    reads_t1_stop.
  destruct (probe_pass data) as [|first rest]; [done|]. simpl.
  rewrite Hx, Ht, Hb, Hh. simpl.
  by destruct (logging_tb rep), x, t.
Qed.

End EarlyStop.


(** The sample run stops in its fourth epoch and returns the parameters of
    its second epoch, whose validation loss 3 is the minimum; the parameters
    at the end of the fourth epoch are 4. *)
Example sample_run_stops_early :
  exists r,
    train 2 0 sample_reporting sample_loaders 0%nat 10 = Ok r /\
    stopped r = true /\
    epochs r = 4 /\
    trained_net r = 2%nat /\
    min_val_loss r = Finite 3 /\
    logged r = Some (1%Q, Finite 3, 3%Q) /\
    (state_after sample_loaders 0%nat 4).1 = 4%nat.
Proof. eexists. split; [reflexivity|]. repeat split. Qed.

End TrainFacts.
(** * Properties of the model-improvement decision *)

Module RunControllerFacts.
Import Py Train RunController.

Lemma below_spec (s : Q) (x : xloss) : below s x = true <-> strictly_lower s x.
Proof.
  destruct x as [q|]; simpl; [|tauto].
  destruct (Qlt_le_dec s q) as [Hlt|Hge]; split; try done.
  intros Hlt. exfalso. exact (Qlt_not_le _ _ Hlt Hge).
Qed.

Lemma exceeds_spec (PAR0 : gmap string pyval) (s : Q) :
  exceeds (score_sofar PAR0) s = Ok true <->
  exists prev, previous_best PAR0 = Some prev /\ strictly_lower s prev.
Proof.
  unfold score_sofar, previous_best.
  destruct (PAR0 !! "best_score") as [[|b|x|str]|]; unfold exceeds.
  - split; [intros _; by exists Infinite | done].
  - split.
    + intros [= H]. eexists. split; [reflexivity|]. by apply below_spec.
    + intros (prev & [= <-] & H). f_equal. by apply below_spec.
  - split.
    + intros [= H]. eexists. split; [reflexivity|]. by apply below_spec.
    + intros (prev & [= <-] & H). f_equal. by apply below_spec.
  - split; [done | by intros (prev & ? & _)].
  - split; [intros _; by exists Infinite | done].
Qed.

Section Decision.
Context {Net Log : Type}.
Implicit Types (r : run Net Log).

Lemma overwrite_config_min_net ci search overwrite r :
  min_net (overwrite_config ci search overwrite r).1 = min_net r.
Proof.
  unfold overwrite_config. destruct (par_get _ _) as [v|]; [|done].
  destruct (truthy v && negb ci); [|done].
  destruct overwrite; try done. by destruct search.
Qed.

Lemma turn_off_tuning_min_net ci turn_off r :
  min_net (turn_off_tuning ci turn_off r).1 = min_net r.
Proof.
  unfold turn_off_tuning. destruct (par_get _ _) as [v|]; [|done].
  destruct (truthy v && negb ci); [|done]. by destruct turn_off.
Qed.

(** The decision sets [min_net] exactly in the improvement branch, whatever
    happens at the prompts afterwards. *)
Lemma improvement_decision_min_net ci search overwrite turn_off
    (net : Net) loss new_score r :
  min_net (improvement_decision ci search overwrite turn_off net loss
             new_score r).1
  = match exceeds (score_sofar (PAR r)) new_score with
    | Ok true => Some net
    | _ => min_net r
    end.
Proof.
  unfold improvement_decision.
  destruct (exceeds _ _) as [[|]|]; try done.
  match goal with
  | |- context [overwrite_config ?c ?s ?o ?x] =>
      pose proof (overwrite_config_min_net c s o x) as H1;
      destruct (overwrite_config c s o x) as [r2 [u|e]]
  end; simpl in *; [|done].
  by rewrite turn_off_tuning_min_net.
Qed.

(** C9: after the final training phase, [main] writes the model file if and
    only if training returned and its test score is strictly lower than the
    previously best-recorded score, a missing or [None] record counting as
    positive infinity; the model written is the newly trained one and the
    configuration is written with it.  With no recorded score a returned
    training run is always persisted; without improvement no model file is
    written. *)
Theorem model_persisted_iff_improved (ci : bool) (search : option study)
    (overwrite turn_off : answer) (PAR0 : gmap string pyval)
    (log0 : option Log)
    (training : result (Net * option Log * xloss * Q)) :
  let out :=
    (main_after_training ci search overwrite turn_off PAR0 log0 training).1 in
  (forall n,
      model_file out = Some n <->
      exists log loss new_score prev,
        training = Ok (n, log, loss, new_score) /\
        previous_best PAR0 = Some prev /\
        strictly_lower new_score prev) /\
  (is_Some (config_file out) <-> is_Some (model_file out)) /\
  (forall n log loss new_score,
      training = Ok (n, log, loss, new_score) ->
      PAR0 !! "best_score" = None \/ PAR0 !! "best_score" = Some PNone ->
      model_file out = Some n) /\
  (forall n log loss new_score prev,
      training = Ok (n, log, loss, new_score) ->
      previous_best PAR0 = Some prev ->
      ~ strictly_lower new_score prev ->
      model_file out = None).
Proof.
  intros out.
  assert (forall n,
      model_file out = Some n <->
      exists log loss new_score prev,
        training = Ok (n, log, loss, new_score) /\
        previous_best PAR0 = Some prev /\
        strictly_lower new_score prev) as Hiff.
  { intros n. subst out. unfold main_after_training.
    destruct training as [[[[net log] loss] new_score]|e]; simpl.
    - match goal with
      | |- context [improvement_decision ?c ?s ?o ?t ?a ?l ?ns ?x] =>
          pose proof (improvement_decision_min_net c s o t a l ns x) as Hmin;
          destruct (improvement_decision c s o t a l ns x) as [r ended]
      end; simpl in *. rewrite Hmin.
      pose proof (exceeds_spec PAR0 new_score) as Hspec.
      destruct (exceeds (score_sofar PAR0) new_score) as [[|]|err].
      + destruct (proj1 Hspec eq_refl) as (prev & Hprev & Hlow). split.
        * intros [= <-]. by exists log, loss, new_score, prev.
        * intros (log' & loss' & s' & prev' & [= -> _ _ _] & _). done.
      + split; [done|].
        intros (log' & loss' & s' & prev' & [= _ _ _ <-] & Hprev & Hlow).
        assert (Ok false = Ok true) as Habs; [|done].
        apply Hspec. by exists prev'.
      + split; [done|].
        intros (log' & loss' & s' & prev' & [= _ _ _ <-] & Hprev & Hlow).
        assert (@Raise bool err = Ok true) as Habs; [|done].
        apply Hspec. by exists prev'.
    - split; [done|]. by intros (? & ? & ? & ? & ? & _). }
  split; [exact Hiff|]. split; [|split].
  - subst out. unfold main_after_training.
    destruct (match training with Ok _ => _ | Raise _ => _ end) as [r ended].
    simpl. destruct (min_net r); split; intros [? ?]; by eauto.
  - intros n log loss new_score Htrain Hnone. apply Hiff.
    exists log, loss, new_score, Infinite. split; [exact Htrain|].
    unfold previous_best. by destruct Hnone as [->| ->].
  - intros n log loss new_score prev Htrain Hprev Hnot.
    destruct (model_file out) as [m|] eqn:Hm; [|done].
    destruct (proj1 (Hiff m) eq_refl) as (? & ? & s & prev' & Heq & Hprev' & Hlow).
    rewrite Htrain in Heq. injection Heq as <- <- <- <-.
    rewrite Hprev in Hprev'. injection Hprev' as <-. done.
Qed.

End Decision.

(** A first run without a recorded score is saved; a run that only equals
    the recorded score is discarded. *)
Example first_run_is_saved :
  model_file
    (main_after_training (Log := unit) true None No No
       (<["best_score" := PNone]> (<["exploration" := PBool false]> ∅))
       None (Ok (7%nat, None, Finite 3, 5%Q))).1
  = Some 7%nat.
Proof. vm_compute. reflexivity. Qed.

Example equal_score_is_discarded :
  model_file
    (main_after_training (Log := unit) true None No No
       (<["best_score" := PNum (Finite 5)]> (<["exploration" := PBool false]> ∅))
       None (Ok (7%nat, None, Finite 3, 5%Q))).1
  = None.
Proof. vm_compute. reflexivity. Qed.

End RunControllerFacts.
(** * Further properties of the batch iterator *)

Module TensorLoaderMore.
Import Py TensorLoader TensorLoaderFacts.

Section Iterator.
Context {W : Type}.
Implicit Types (d : CustomTensorData W) (ld : CustomTensorDataLoader W).
Implicit Types (t : list W) (indices row draw : list nat) (p : list (list nat)).

Lemma index_select_lookups t indices ws :
  index_select t indices = Ok ws <->
  Forall2 (fun i w => t !! i = Some w) indices ws.
Proof.
  revert ws. induction indices as [|i rest IH]; intros ws; simpl.
  - split.
    + intros [= <-]. constructor.
    + intros H. by inversion H.
  - unfold getitem. destruct (t !! i) as [w|] eqn:Hi; simpl.
    + destruct (index_select t rest) as [ws'|e] eqn:Hrest; simpl.
      * split.
        -- intros [= <-]. constructor; [done | by apply IH].
        -- intros H. inversion H as [|? w' ? ws'' Hw Hall]; subst.
           apply IH in Hall. congruence.
      * split; [done|]. intros H. inversion H as [|? w' ? ws'' Hw Hall]; subst.
        apply IH in Hall. done.
    + split; [done|]. intros H. inversion H; subst. congruence.
Qed.

Lemma index_select_raises t indices e :
  index_select t indices = Raise e ->
  e = IndexError /\ Exists (fun i => length t <= i) indices.
Proof.
  induction indices as [|i rest IH]; simpl; [done|].
  unfold getitem. destruct (t !! i) as [w|] eqn:Hi; simpl.
  - destruct (index_select t rest) as [ws'|e'] eqn:Hrest; simpl; [done|].
    intros [= <-]. destruct (IH eq_refl) as [-> Hex].
    split; [done | by apply Exists_cons_tl].
  - intros [= <-]. split; [done|]. apply Exists_cons_hd.
    by apply lookup_ge_None.
Qed.

(** X1: indexing a tensor with an index array returns the windows at these
    indices, in the order of the array, when every index is in range, and
    raises [IndexError] (and nothing else) as soon as one index is not. *)
Theorem index_select_spec t indices :
  (forall ws, index_select t indices = Ok ws <->
              Forall2 (fun i w => t !! i = Some w) indices ws) /\
  (returned (index_select t indices) = true <->
   Forall (fun i => i < length t) indices) /\
  (forall e, index_select t indices = Raise e -> e = IndexError).
Proof.
  split; [intros ws; apply index_select_lookups|]. split.
  - split.
    + destruct (index_select t indices) as [ws|e] eqn:Hsel; [|done].
      intros _. apply index_select_lookups in Hsel.
      induction Hsel as [|i w rest ws Hi _ IH]; constructor; [|exact IH].
      by eapply lookup_lt_Some.
    + intros Hall. destruct (index_select_ok t indices Hall) as [ws [-> _]].
      done.
  - intros e He. by destruct (index_select_raises t indices e He).
Qed.

Lemma index_select_app t (r1 r2 : list nat) ws1 ws2 :
  index_select t r1 = Ok ws1 -> index_select t r2 = Ok ws2 ->
  index_select t (r1 ++ r2) = Ok (ws1 ++ ws2).
Proof.
  rewrite !index_select_lookups. apply Forall2_app.
Qed.

Lemma index_select_seq t (a n : nat) :
  a + n <= length t ->
  index_select t (seq a n) = Ok (take n (drop a t)).
Proof.
  intros Hle. apply index_select_lookups.
  revert a Hle. induction n as [|n IH]; intros a Hle; simpl.
  - rewrite take_0. constructor.
  - destruct (lookup_lt_is_Some_2 t a ltac:(lia)) as [w Hw].
    rewrite (drop_S _ _ _ Hw). simpl. constructor; [done|].
    apply IH. lia.
Qed.

(** The windows of the batches of a schedule, concatenated, are the windows
    selected by the concatenated schedule. *)
Lemma batches_concat d p (bs : list (batch W)) :
  Forall2 (fun row b => data_getitem d row = Ok b) p bs ->
  index_select (inputs1 d) (concat p) = Ok (concat (map (fun b => b.1.1) bs)) /\
  index_select (inputs2 d) (concat p) = Ok (concat (map (fun b => b.1.2) bs)) /\
  index_select (targets d) (concat p) = Ok (concat (map (fun b => b.2) bs)).
Proof.
  induction 1 as [|row b p bs Hb _ (IH1 & IH2 & IH3)]; simpl; [done|].
  unfold data_getitem in Hb.
  destruct (index_select (inputs1 d) row) as [x|] eqn:H1; simpl in Hb; [|done].
  destruct (index_select (inputs2 d) row) as [y|] eqn:H2; simpl in Hb; [|done].
  destruct (index_select (targets d) row) as [z|] eqn:H3; simpl in Hb; [|done].
  injection Hb as <-. simpl.
  repeat split; by apply index_select_app.
Qed.

(** One pass over an aligned dataset: the end state and the batches. *)
Lemma pass_run d (B : nat) (sh dl : bool)
    (p0 : option (list (list nat))) (bi0 : option nat) draw :
  aligned d ->
  1 <= B ->
  (sh = true -> draw ≡ₚ seq 0 (data_len d)) ->
  let N := data_len d in
  let p := rows_of (N / B) B (flat_schedule sh (B * (N / B)) draw) in
  exists bs,
    iterate_pass draw (mkLoader d B sh dl p0 bi0)
    = Some (mkLoader d B sh dl (Some p) (Some (N / B)), Ok bs) /\
    Forall2 (fun row b => data_getitem d row = Ok b) p bs /\
    concat p = flat_schedule sh (B * (N / B)) draw.
Proof.
  intros Hal HB Hdraw N p.
  assert (B <> 0) as HB0 by lia.
  set (flat := flat_schedule sh (B * (N / B)) draw).
  assert (length flat = N / B * B) as Hflat
    by (apply flat_schedule_length; exact Hdraw).
  pose proof (rows_of_concat (N / B) B flat Hflat) as Hcat. fold p in Hcat.
  assert (Forall (fun row => exists b, data_getitem d row = Ok b) p) as Hrows.
  { apply Forall_forall. intros row Hrow.
    destruct (data_getitem_ok d row Hal) as [b [Hb _]]; [|by exists b].
    apply Forall_forall. intros i Hi.
    apply (flat_schedule_valid sh N B draw i Hdraw). fold flat.
    rewrite <- Hcat. apply list_elem_of_In, in_concat. exists row.
    split; by apply list_elem_of_In. }
  destruct (drain_schedule d B sh dl p HB0) with (k := N / B) (bi := 0)
    (fuel := S N) as [bs [Hdrain Hall]].
  - apply rows_of_length.
  - exact Hrows.
  - fold N. lia.
  - lia.
  - fold N. assert (N / B <= N) by (apply Nat.Div0.div_le_upper_bound; nia). lia.
  - exists bs. split; [|split; [by rewrite drop_0 in Hall | exact Hcat]].
    unfold iterate_pass, iter, len, floordiv, np_reshape. simpl.
    destruct (Nat.eqb_spec B 0) as [|_]; [done|]. simpl.
    fold N. fold (flat_schedule sh (B * (N / B)) draw). fold flat.
    rewrite Hflat, Nat.eqb_refl. simpl. exact Hdrain.
Qed.

(** X2: an unshuffled pass over an aligned dataset yields the windows in
    time order: the batches of each of the three tensors, concatenated, are
    the first [B * (N // B)] windows of that tensor; the trailing windows
    appear in no batch. *)
Theorem unshuffled_pass_in_time_order d (B : nat) draw :
  aligned d ->
  1 <= B ->
  let n := B * (data_len d / B) in
  exists ld' bs,
    iterate_pass draw (mkLoader d B false true None None) = Some (ld', Ok bs) /\
    concat (map (fun b => b.1.1) bs) = take n (inputs1 d) /\
    concat (map (fun b => b.1.2) bs) = take n (inputs2 d) /\
    concat (map (fun b => b.2) bs) = take n (targets d).
Proof.
  intros Hal HB n.
  destruct (pass_run d B false true None None draw Hal HB) as (bs & Hpass & Hall & Hcat);
    [done|].
  eexists. exists bs. split; [exact Hpass|].
  destruct (batches_concat d _ bs Hall) as (H1 & H2 & H3).
  rewrite Hcat in H1, H2, H3. unfold flat_schedule in H1, H2, H3. fold n in H1, H2, H3.
  assert (n <= data_len d) as Hn
    by (unfold n; apply Nat.Div0.mul_div_le).
  destruct Hal as [Ha1 Ha2]. unfold data_len in Hn.
  rewrite index_select_seq in H1, H2, H3 by (simpl; lia).
  rewrite drop_0 in H1, H2, H3.
  repeat split; congruence.
Qed.

(** X3: a pass over an aligned dataset, shuffled or not, yields
    [N - N mod B] windows in total, and fewer than [B] windows are left
    out. *)
Theorem pass_leaves_out_remainder d (B : nat) (sh : bool) draw :
  aligned d ->
  1 <= B ->
  (sh = true -> draw ≡ₚ seq 0 (data_len d)) ->
  exists ld' bs,
    iterate_pass draw (mkLoader d B sh true None None) = Some (ld', Ok bs) /\
    length (concat (map (fun b => b.2) bs)) = data_len d - data_len d mod B /\
    data_len d mod B < B.
Proof.
  intros Hal HB Hdraw.
  destruct (pass_run d B sh true None None draw Hal HB Hdraw)
    as (bs & Hpass & Hall & Hcat).
  eexists. exists bs. split; [exact Hpass|].
  destruct (batches_concat d _ bs Hall) as (_ & _ & H3).
  apply index_select_lookups, Forall2_length in H3. rewrite <- H3, Hcat.
  rewrite (flat_schedule_length sh (data_len d) B draw Hdraw).
  pose proof (Nat.div_mod_eq (data_len d) B).
  split; [lia | apply Nat.mod_upper_bound; lia].
Qed.

(** X4: once a pass is complete the loader is exhausted: every further
    [next] raises [StopIteration] and leaves the loader as it is. *)
Theorem exhausted_loader_stops d (B : nat) (sh : bool) draw :
  aligned d ->
  1 <= B ->
  (sh = true -> draw ≡ₚ seq 0 (data_len d)) ->
  exists ld' bs,
    iterate_pass draw (mkLoader d B sh true None None) = Some (ld', Ok bs) /\
    next ld' = (ld', Raise StopIteration) /\
    forall fuel, drain (S fuel) ld' = Some (ld', Ok []).
Proof.
  intros Hal HB Hdraw.
  destruct (pass_run d B sh true None None draw Hal HB Hdraw)
    as (bs & Hpass & _ & _).
  eexists. exists bs. split; [exact Hpass|].
  assert (forall p, next (mkLoader d B sh true (Some p) (Some (data_len d / B)))
          = (mkLoader d B sh true (Some p) (Some (data_len d / B)),
             Raise StopIteration)) as Hnext.
  { intros p. unfold next, len, floordiv. simpl.
    destruct (Nat.eqb_spec B 0) as [|_]; [lia|]. by rewrite Nat.ltb_irrefl. }
  split; [apply Hnext|]. intros fuel. simpl. by rewrite Hnext.
Qed.

(** X5: starting a new pass in the middle of another one restarts the
    iteration: whatever schedule and batch position the loader holds, the
    pass yields what a pass on a fresh loader yields. *)
Theorem new_pass_restarts d (B : nat) (sh dl : bool)
    (p0 : option (list (list nat))) (bi0 : option nat) draw :
  1 <= B ->
  (sh = true -> draw ≡ₚ seq 0 (data_len d)) ->
  iterate_pass draw (mkLoader d B sh dl p0 bi0)
  = iterate_pass draw (mkLoader d B sh dl None None).
Proof.
  intros HB Hdraw. unfold iterate_pass.
  change (iter draw (mkLoader d B sh dl p0 bi0))
    with (iter draw (mkLoader d B sh dl None None)).
  rewrite (iter_schedule d B sh dl draw ltac:(lia) Hdraw). reflexivity.
Qed.

(** Misuse of the loader.  [next] on a loader on which [iter] was never
    called raises [AttributeError]; with a batch size of zero [len] and
    [iter] raise [ZeroDivisionError] and a pass yields no batch. *)
Lemma loader_misuse d (B : nat) (sh : bool) draw :
  next (mkLoader d B sh true None None)
  = (mkLoader d B sh true None None, Raise AttributeError) /\
  len (mkLoader d 0 sh true None None) = Raise ZeroDivisionError /\
  iter draw (mkLoader d 0 sh true None None) = Raise ZeroDivisionError /\
  iterate_pass draw (mkLoader d 0 sh true None None)
  = Some (mkLoader d 0 sh true None None, Raise ZeroDivisionError).
Proof. repeat split. Qed.

End Iterator.

Lemma unshuffled_pass_in_time_order_witness :
  exists ld' bs,
    iterate_pass [] (mkLoader sample_data 2 false true None None)
    = Some (ld', Ok bs) /\
    concat (map (fun b => b.1.1) bs) = [10; 11; 12; 13] /\
    concat (map (fun b => b.1.2) bs) = [20; 21; 22; 23] /\
    concat (map (fun b => b.2) bs) = [30; 31; 32; 33].
Proof.
  apply (unshuffled_pass_in_time_order sample_data 2 []).
  - split; reflexivity.
  - lia.
Defined.

Lemma pass_leaves_out_remainder_witness :
  exists ld' bs,
    iterate_pass sample_draw (mkLoader sample_data 2 true true None None)
    = Some (ld', Ok bs) /\
    length (concat (map (fun b => b.2) bs)) = 5 - 1 /\
    1 < 2.
Proof.
  apply (pass_leaves_out_remainder sample_data 2 true sample_draw).
  - split; reflexivity.
  - lia.
  - intros _. exact sample_draw_permutation.
Defined.

Lemma exhausted_loader_stops_witness :
  exists ld' bs,
    iterate_pass sample_draw (mkLoader sample_data 2 true true None None)
    = Some (ld', Ok bs) /\
    next ld' = (ld', Raise StopIteration) /\
    forall fuel, drain (S fuel) ld' = Some (ld', Ok []).
Proof.
  apply (exhausted_loader_stops sample_data 2 true sample_draw).
  - split; reflexivity.
  - lia.
  - intros _. exact sample_draw_permutation.
Defined.

Lemma new_pass_restarts_witness :
  iterate_pass sample_draw
    (mkLoader sample_data 2 true true (Some [[0; 1]; [2; 3]]) (Some 1))
  = iterate_pass sample_draw (mkLoader sample_data 2 true true None None).
Proof.
  apply (new_pass_restarts sample_data 2 true true).
  - lia.
  - intros _. exact sample_draw_permutation.
Defined.

End TensorLoaderMore.
(** * Further properties of [make_dataloader] *)

Module MakeLoaderMore.
Import Py TensorLoader MakeLoader MakeLoaderFacts.

Lemma column_index_returns (cols : list string) (c : string) :
  (c ∈ cols -> exists i, column_index cols c = Ok i /\ cols !! i = Some c) /\
  (c ∉ cols -> column_index cols c = Raise KeyError).
Proof.
  induction cols as [|c' cols [IHin IHout]]; simpl.
  - split; [by intros ?%elem_of_nil | done].
  - destruct (decide (c' = c)) as [->|Hne].
    + split; [intros _; by exists 0 | intros []; by left].
    + split.
      * intros [?|Hin]%elem_of_cons; [congruence|].
        destruct (IHin Hin) as (i & -> & Hi). by exists (S i).
      * intros Hout. rewrite IHout; [done|]. intros ?. apply Hout. by right.
Qed.

Lemma column_indices_returns (cols wanted : list string) :
  (Forall (fun c => c ∈ cols) wanted ->
   exists ixs, column_indices cols wanted = Ok ixs /\
               Forall2 (fun i c => cols !! i = Some c) ixs wanted) /\
  (~ Forall (fun c => c ∈ cols) wanted ->
   column_indices cols wanted = Raise KeyError).
Proof.
  induction wanted as [|c wanted [IHin IHout]]; simpl.
  - split; [intros _; exists []; by split | intros []; constructor].
  - split.
    + intros [Hc Hrest]%Forall_cons.
      destruct (proj1 (column_index_returns cols c) Hc) as (i & -> & Hi).
      destruct (IHin Hrest) as (ixs & -> & Hall). simpl.
      exists (i :: ixs). split; [done | by constructor].
    + intros Hnot. destruct (decide (c ∈ cols)) as [Hc|Hc].
      * destruct (proj1 (column_index_returns cols c) Hc) as (i & -> & Hi).
        simpl. rewrite IHout; [done|]. intros Hrest. apply Hnot.
        by constructor.
      * by rewrite (proj2 (column_index_returns cols c) Hc).
Qed.

Lemma select_returns {V} (df : DataFrame V) (wanted : list string) :
  (Forall (fun c => c ∈ columns df) wanted ->
   exists df', select df wanted = Ok df' /\ columns df' = wanted /\
               length (rows df') = length (rows df)) /\
  (~ Forall (fun c => c ∈ columns df) wanted ->
   select df wanted = Raise KeyError).
Proof.
  unfold select. split.
  - intros Hall.
    destruct (proj1 (column_indices_returns _ _) Hall) as (ixs & -> & _).
    simpl. eexists. split; [reflexivity|]. simpl. by rewrite length_map.
  - intros Hnot. by rewrite (proj2 (column_indices_returns _ _) Hnot).
Qed.

Section Outcome.
Context {V : Type} (extract : extractor V).

Lemma extract_series_outcome (df : DataFrame V) (target_id : string)
    (enc dec : list string) (hh fh : nat) :
  (Forall (fun c => c ∈ columns df) (enc ++ dec ++ [target_id]) ->
   returned (extract_series extract df target_id enc dec hh fh) = true) /\
  (~ Forall (fun c => c ∈ columns df) (enc ++ dec ++ [target_id]) ->
   extract_series extract df target_id enc dec hh fh = Raise KeyError).
Proof.
  unfold extract_series. rewrite !Forall_app. split.
  - intros (He & Hd & Ht).
    destruct (proj1 (select_returns df enc) He) as (e & -> & _).
    destruct (proj1 (select_returns df dec) Hd) as (d & -> & _).
    destruct (proj1 (select_returns df [target_id]) Ht) as (t & -> & _).
    done.
  - intros Hnot.
    destruct (decide (Forall (fun c => c ∈ columns df) enc)) as [He|He];
      [|by rewrite (proj2 (select_returns df enc) He)].
    destruct (proj1 (select_returns df enc) He) as (e & -> & _). simpl.
    destruct (decide (Forall (fun c => c ∈ columns df) dec)) as [Hd|Hd];
      [|by rewrite (proj2 (select_returns df dec) Hd)].
    destruct (proj1 (select_returns df dec) Hd) as (d & -> & _). simpl.
    destruct (decide (Forall (fun c => c ∈ columns df) [target_id])) as [Ht|Ht];
      [tauto|].
    by rewrite (proj2 (select_returns df [target_id]) Ht).
Qed.

(** X6: [make_dataloader] returns a loader exactly when [drop_last] is set
    and the frame has every encoder, decoder and target column.  A missing
    column raises [KeyError], whatever [drop_last] is; with all columns
    present, [drop_last=False] raises [NotImplementedError]. *)
Theorem make_dataloader_outcome (df : DataFrame V) (target_id : string)
    (enc dec : list string) (hh fh B : nat) (sh dl : bool) :
  let present :=
    Forall (fun c => c ∈ columns df) (enc ++ dec ++ [target_id]) in
  let r := make_dataloader extract df target_id enc dec hh fh B sh dl in
  (returned r = true <-> dl = true /\ present) /\
  (~ present -> r = Raise KeyError) /\
  (present -> dl = false -> r = Raise NotImplementedError).
Proof.
  intros present r. subst r. unfold make_dataloader.
  destruct (extract_series_outcome df target_id enc dec hh fh) as [Hin Hout].
  fold present in Hin, Hout.
  destruct (decide present) as [Hp|Hp].
  - specialize (Hin Hp).
    destruct (extract_series extract df target_id enc dec hh fh)
      as [[[x_enc x_dec] y]|] eqn:Hs; [|done]. simpl.
    destruct (align x_enc x_dec y) as [[a b] c]. unfold init.
    destruct dl; simpl; repeat split; try done; tauto.
  - rewrite (Hout Hp). simpl. repeat split; try done; tauto.
Qed.

(** What the code relies on from [dt.extract]: the number of windows is
    determined by the number of rows and the horizon. *)
Context (n_windows : nat -> nat -> nat).
Hypothesis extract_length :
  forall (df : DataFrame V) (h : nat),
    length (extract df h) = n_windows (length (rows df)) h.


End Outcome.

Lemma column_index_skip (pre l : list string) (c : string) :
  c ∉ pre ->
  column_index (pre ++ l) c = (fun i => length pre + i) <$> column_index l c.
Proof.
  induction pre as [|c' pre IH]; intros Hc; simpl.
  - by destruct (column_index l c).
  - destruct (decide (c' = c)) as [->|_]; [exfalso; apply Hc; by left|].
    rewrite IH by (intros ?; apply Hc; by right).
    by destruct (column_index l c).
Qed.

Lemma column_indices_suffix (pre suf : list string) :
  NoDup (pre ++ suf) ->
  column_indices (pre ++ suf) suf = Ok (seq (length pre) (length suf)).
Proof.
  revert pre. induction suf as [|c suf IH]; intros pre Hnd; [done|].
  simpl. assert (c ∉ pre) as Hc.
  { apply NoDup_app in Hnd as (_ & Hsep & _). intros Hin.
    apply (Hsep c Hin). by left. }
  rewrite (column_index_skip pre (c :: suf) c Hc). simpl.
  destruct (decide (c = c)) as [_|]; [|done]. simpl.
  replace (pre ++ c :: suf) with ((pre ++ [c]) ++ suf) by (by rewrite <- app_assoc).
  rewrite IH by (by rewrite <- app_assoc). simpl.
  rewrite length_app. simpl.
  by replace (length pre + 1) with (S (length pre)) by lia;
     replace (length pre + 0) with (length pre) by lia.
Qed.

Lemma omap_lookup_seq {V} (r : list V) (a n : nat) :
  a + n <= length r ->
  omap (fun i => r !! i) (seq a n) = take n (drop a r).
Proof.
  revert a. induction n as [|n IH]; intros a Hle; simpl.
  - by rewrite take_0.
  - destruct (lookup_lt_is_Some_2 r a ltac:(lia)) as [v Hv].
    rewrite Hv, (drop_S _ _ _ Hv). simpl. f_equal. apply IH. lia.
Qed.

(** X8: selecting all columns of a frame, in their order, gives the frame
    back, provided the column names are distinct and every row has one value
    per column. *)
Theorem select_all_columns {V} (df : DataFrame V) :
  NoDup (columns df) ->
  Forall (fun r => length r = length (columns df)) (rows df) ->
  select df (columns df) = Ok df.
Proof.
  intros Hnd Hrect. unfold select.
  pose proof (column_indices_suffix [] (columns df) Hnd) as Hix.
  simpl in Hix. rewrite Hix. simpl.
  destruct df as [cols rs]. simpl in *. do 2 f_equal.
  induction Hrect as [|r rs Hr _ IH]; [done|]. simpl. f_equal; [|exact IH].
  rewrite omap_lookup_seq by lia. rewrite drop_0, <- Hr. apply firstn_all.
Qed.


Lemma select_all_columns_witness :
  select sample_frame ["load"; "temp"] = Ok sample_frame.
Proof.
  apply (select_all_columns sample_frame).
  - apply (bool_decide_unpack _). vm_compute. exact I.
  - simpl. repeat constructor.
Defined.

End MakeLoaderMore.
(** * Properties of the other scoring functions *)

Module MetricsMoreFacts.
Import Py Metrics MetricsFacts MetricsMore.
Local Open Scope R_scope.
Local Arguments pow _ _ : simpl never.

(** ** Sums over lists and over tensors *)

Lemma Rsum_minus {A} (f g : A -> R) (l : list A) :
  Rsum (map (fun a => f a - g a) l) = Rsum (map f l) - Rsum (map g l).
Proof. unfold Rsum. induction l as [|a l IH]; simpl; [lra | rewrite IH; lra]. Qed.

Lemma Rsum_scale {A} (c : R) (f : A -> R) (l : list A) :
  Rsum (map (fun a => c * f a) l) = c * Rsum (map f l).
Proof. unfold Rsum. induction l as [|a l IH]; simpl; [lra | rewrite IH; lra]. Qed.

Lemma Rsum_nonneg {A} (f : A -> R) (l : list A) :
  (forall a, a ∈ l -> 0 <= f a) -> 0 <= Rsum (map f l).
Proof.
  unfold Rsum. induction l as [|a l IH]; intros Hf; simpl; [lra|].
  pose proof (Hf a ltac:(constructor)).
  assert (0 <= foldr Rplus 0 (map f l))
    by (apply IH; intros b Hb; apply Hf; by constructor).
  lra.
Qed.

Lemma Rsum_le {A} (f g : A -> R) (l : list A) :
  (forall a, a ∈ l -> f a <= g a) -> Rsum (map f l) <= Rsum (map g l).
Proof.
  unfold Rsum. induction l as [|a l IH]; intros Hf; simpl; [lra|].
  pose proof (Hf a ltac:(constructor)).
  assert (foldr Rplus 0 (map f l) <= foldr Rplus 0 (map g l))
    by (apply IH; intros b Hb; apply Hf; by constructor).
  lra.
Qed.

Lemma Rsum_zero_inv {A} (f : A -> R) (l : list A) :
  (forall a, a ∈ l -> 0 <= f a) -> Rsum (map f l) = 0 ->
  forall a, a ∈ l -> f a = 0.
Proof.
  induction l as [|a l IH]; intros Hf Hsum b Hb; [by apply elem_of_nil in Hb|].
  pose proof (Hf a ltac:(constructor)) as Ha.
  assert (forall c, c ∈ l -> 0 <= f c) as Hl
    by (intros c Hc; apply Hf; by constructor).
  pose proof (Rsum_nonneg f l Hl) as Hrest.
  unfold Rsum in *. simpl in Hsum.
  apply elem_of_cons in Hb as [->|Hb]; [lra|].
  apply IH; [exact Hl | lra | exact Hb].
Qed.

Lemma elem_of_positions (N H K i h k : nat) :
  (i, h, k) ∈ positions N H K <-> (i < N /\ h < H /\ k < K)%nat.
Proof.
  unfold positions. rewrite list_elem_of_bind. split.
  - intros (i' & Hin & Hi'). apply list_elem_of_bind in Hin as (h' & Hin & Hh').
    apply list_elem_of_bind in Hin as (k' & Hin & Hk').
    apply list_elem_of_singleton in Hin as [= -> -> ->].
    apply elem_of_seq in Hi', Hh', Hk'. lia.
  - intros (Hi & Hh & Hk). exists i. split; [|apply elem_of_seq; lia].
    apply list_elem_of_bind. exists h. split; [|apply elem_of_seq; lia].
    apply list_elem_of_bind. exists k. split; [|apply elem_of_seq; lia].
    by apply list_elem_of_singleton.
Qed.

Lemma length_positions (N H K : nat) :
  length (positions N H K) = (N * H * K)%nat.
Proof.
  unfold positions.
  rewrite (length_bind_const _ _ (H * K)), length_seq; [lia|].
  intros i. rewrite (length_bind_const _ _ K), length_seq; [done|].
  intros h. rewrite (length_bind_const _ _ 1%nat), length_seq; [lia|done].
Qed.

(** The sum of a tensor is the sum over its positions. *)
Lemma torch_sum_positions (t : tensor R) :
  torch_sum t
  = Rsum (map (fun '(i, h, k) => entry t i h k)
            (positions (dim0 t) (dim1 t) (dim2 t))).
Proof.
  unfold torch_sum, sum_upto, positions.
  rewrite Rsum_bind. apply Rsum_ext. intros i _.
  rewrite Rsum_bind. apply Rsum_ext. intros h _.
  rewrite Rsum_bind. apply Rsum_ext. intros k _.
  simpl. unfold Rsum. simpl. lra.
Qed.

Lemma torch_sum_ext (N H K : nat) (f g : nat -> nat -> nat -> R) :
  (forall i h k, (i < N)%nat -> (h < H)%nat -> (k < K)%nat ->
                 f i h k = g i h k) ->
  torch_sum (mkTensor N H K f) = torch_sum (mkTensor N H K g).
Proof.
  intros Hfg. rewrite !torch_sum_positions. simpl. apply Rsum_ext.
  intros [[i h] k] Hin. apply elem_of_positions in Hin as (? & ? & ?).
  by apply Hfg.
Qed.

Lemma torch_sum_minus (N H K : nat) (f g : nat -> nat -> nat -> R) :
  torch_sum (mkTensor N H K (fun i h k => f i h k - g i h k))
  = torch_sum (mkTensor N H K f) - torch_sum (mkTensor N H K g).
Proof.
  rewrite !torch_sum_positions. simpl.
  rewrite <- (Rsum_minus (fun '(i, h, k) => f i h k) (fun '(i, h, k) => g i h k)).
  apply Rsum_ext. by intros [[i h] k] _.
Qed.

Lemma torch_sum_nonneg (N H K : nat) (f : nat -> nat -> nat -> R) :
  (forall i h k, (i < N)%nat -> (h < H)%nat -> (k < K)%nat -> 0 <= f i h k) ->
  0 <= torch_sum (mkTensor N H K f).
Proof.
  intros Hf. rewrite torch_sum_positions. simpl. apply Rsum_nonneg.
  intros [[i h] k] Hin. apply elem_of_positions in Hin as (? & ? & ?).
  by apply Hf.
Qed.

Lemma torch_sum_le (N H K : nat) (f g : nat -> nat -> nat -> R) :
  (forall i h k, (i < N)%nat -> (h < H)%nat -> (k < K)%nat ->
                 f i h k <= g i h k) ->
  torch_sum (mkTensor N H K f) <= torch_sum (mkTensor N H K g).
Proof.
  intros Hf. rewrite !torch_sum_positions. simpl. apply Rsum_le.
  intros [[i h] k] Hin. apply elem_of_positions in Hin as (? & ? & ?).
  by apply Hf.
Qed.

Lemma torch_sum_zero_inv (N H K : nat) (f : nat -> nat -> nat -> R) :
  (forall i h k, (i < N)%nat -> (h < H)%nat -> (k < K)%nat -> 0 <= f i h k) ->
  torch_sum (mkTensor N H K f) = 0 ->
  forall i h k, (i < N)%nat -> (h < H)%nat -> (k < K)%nat -> f i h k = 0.
Proof.
  intros Hf Hsum i h k Hi Hh Hk. rewrite torch_sum_positions in Hsum.
  simpl in Hsum.
  apply (Rsum_zero_inv (fun '(i, h, k) => f i h k) (positions N H K))
    with (a := (i, h, k)); [|exact Hsum|by apply elem_of_positions].
  intros [[i' h'] k'] Hin. apply elem_of_positions in Hin as (? & ? & ?).
  by apply Hf.
Qed.

Lemma torch_sum_const (N H K : nat) (c : R) :
  torch_sum (mkTensor N H K (fun _ _ _ => c)) = INR (N * H * K) * c.
Proof.
  rewrite torch_sum_positions. simpl.
  pose proof (Rsum_bounds (fun '(i, h, k) => c) (positions N H K) c c) as Hb.
  rewrite length_positions in Hb.
  assert (forall a : nat * nat * nat,
             a ∈ positions N H K -> c <= (let '(_, _, _) := a in c) <= c) as Hc
    by (intros [[? ?] ?] _; lra).
  specialize (Hb Hc). lra.
Qed.

Lemma numel_pos (N H K : nat) :
  (1 <= N)%nat -> (1 <= H)%nat -> (1 <= K)%nat -> 0 < INR (N * H * K).
Proof. intros. apply lt_0_INR. nia. Qed.

Lemma tzip_same {A B C} (f : A -> B -> C) (a : tensor A) (b : tensor B) :
  shape a = shape b ->
  tzip f a b
  = Ok (mkTensor (dim0 a) (dim1 a) (dim2 a)
          (fun i h k => f (entry a i h k) (entry b i h k))).
Proof. intros H. unfold tzip. by rewrite same_shape_eq. Qed.

Lemma same_shape_iff {A B} (a : tensor A) (b : tensor B) :
  same_shape a b = true <-> shape a = shape b.
Proof. unfold same_shape. apply bool_decide_eq_true. Qed.

(** ** Residuals, squared and absolute errors *)

(** X9: for a non-empty target and a prediction of its shape, the total
    residual is the mean of the target minus the mean of the prediction, so
    it is 0 for every prediction with the mean of the target. *)
Theorem residuals_is_mean_difference (target prediction : tensor R)
    (more : list (tensor R)) :
  shape prediction = shape target ->
  nonempty target ->
  residuals target (prediction :: more) true
  = Ok (Scalar (torch_mean target - torch_mean prediction)).
Proof.
  intros Hs _. unfold residuals. simpl. rewrite (same_shape_eq _ _ Hs). simpl.
  rewrite tzip_same by done. simpl. do 2 f_equal.
  destruct target as [N H K t], prediction as [N' H' K' p].
  injection Hs as -> -> ->. unfold torch_mean. simpl.
  rewrite torch_sum_minus. unfold Rdiv. ring.
Qed.

(** X10: a first prediction whose shape differs from the target's makes
    [residuals], [mse] and [rmse] raise [ValueError], in both forms and
    whatever follows in the prediction list. *)
Theorem shape_mismatch_raises (target prediction : tensor R)
    (more : list (tensor R)) (total : bool) :
  shape prediction <> shape target ->
  residuals target (prediction :: more) total = Raise ValueError /\
  mse target (prediction :: more) total = Raise ValueError /\
  rmse target (prediction :: more) total = Raise ValueError.
Proof.
  intros Hs. unfold residuals, mse, rmse. simpl.
  destruct (same_shape prediction target) eqn:Hsame; [|done].
  by apply same_shape_iff in Hsame.
Qed.

(** X11: the functions that take a pair of predictions assert that the
    list has exactly two entries: with any other number of predictions
    [nll_gauss], [crps_gaussian], [sharpness], [picp], [picp_loss] and
    [mis] raise [AssertionError], in both forms. *)
Theorem two_predictions_required (normal_cdf : R -> R) (target : tensor R)
    (predictions : list (tensor R)) (alpha : R) (total : bool) :
  length predictions <> 2%nat ->
  nll_gauss target predictions total = Raise AssertionError /\
  crps_gaussian normal_cdf target predictions total = Raise AssertionError /\
  sharpness predictions total = Raise AssertionError /\
  picp target predictions total = Raise AssertionError /\
  picp_loss target predictions total = Raise AssertionError /\
  mis target predictions alpha total = Raise AssertionError.
Proof.
  intros Hlen.
  unfold nll_gauss, crps_gaussian, sharpness, picp_loss, picp, mis.
  rewrite !bool_decide_eq_false_2 by done. done.
Qed.

Lemma mse_value (target prediction : tensor R) (more : list (tensor R)) :
  shape prediction = shape target ->
  mse target (prediction :: more) true
  = Ok (Scalar (torch_sum
                  (mkTensor (dim0 target) (dim1 target) (dim2 target)
                     (fun i h k =>
                        (entry target i h k - entry prediction i h k) ^ 2))
                / INR (dim0 target * dim1 target * dim2 target))).
Proof.
  intros Hs. unfold mse. simpl. rewrite (same_shape_eq _ _ Hs). simpl.
  rewrite tzip_same by done. reflexivity.
Qed.

(** X12: for a non-empty target and a prediction of its shape, the mean
    squared error is not negative, does not change when target and
    prediction are exchanged, and is 0 exactly when the prediction equals
    the target at every position. *)
Theorem mse_nonneg_symmetric_definite (target prediction : tensor R) :
  shape prediction = shape target ->
  nonempty target ->
  exists v,
    mse target [prediction] true = Ok (Scalar v) /\
    mse prediction [target] true = Ok (Scalar v) /\
    rmse target [prediction] true = Ok (Scalar (sqrt v)) /\
    0 <= v /\
    (v = 0 <-> forall i h k, within target i h k ->
                             entry prediction i h k = entry target i h k).
Proof.
  intros Hs (HN & HH & HK).
  destruct target as [N H K t], prediction as [N' H' K' p].
  pose proof Hs as Hs'. injection Hs' as -> -> ->. simpl in *.
  pose proof (numel_pos N H K HN HH HK) as Hpos.
  eexists. split; [apply mse_value; exact Hs|]. simpl.
  split; [|split; [|split]].
  - rewrite mse_value by done. simpl. do 3 f_equal.
    apply torch_sum_ext. intros. ring.
  - unfold rmse. simpl. rewrite (same_shape_eq _ _ Hs). simpl.
    rewrite tzip_same by (symmetry; exact Hs). reflexivity.
  - apply Rmult_le_pos; [|left; by apply Rinv_0_lt_compat].
    apply torch_sum_nonneg. intros. apply pow2_ge_0.
  - unfold within. simpl. split.
    + intros Hv i h k (Hi & Hh & Hk).
      assert (torch_sum (mkTensor N H K (fun i h k => (t i h k - p i h k) ^ 2))
              = 0) as Hsum.
      { apply Rmult_integral in Hv as [Hv|Hv]; [exact Hv|].
        pose proof (Rinv_0_lt_compat _ Hpos). lra. }
      pose proof (torch_sum_zero_inv N H K _
                    (fun _ _ _ _ _ _ => pow2_ge_0 _) Hsum i h k Hi Hh Hk) as Hz.
      simpl in Hz. nra.
    + intros Heq.
      rewrite (torch_sum_ext N H K _ (fun _ _ _ => 0)).
      * rewrite torch_sum_const. unfold Rdiv. ring.
      * intros i h k Hi Hh Hk. rewrite Heq by done. ring.
Qed.

(** ** Pinball loss and quantile score *)

Lemma Rlt_b_true (x y : R) : Rlt_b x y = true <-> x < y.
Proof. unfold Rlt_b. destruct (Rlt_dec x y); split; try done. Qed.

Lemma pinball_term_nonneg (q e : R) :
  valid_quantile q -> 0 <= Rmax (q * e) ((q - 1) * e).
Proof.
  intros [H0 H1]. destruct (Rle_dec 0 e) as [He|He].
  - eapply Rle_trans; [|apply Rmax_l]. nra.
  - eapply Rle_trans; [|apply Rmax_r]. nra.
Qed.

(** One round of the loop of [pinball_loss] on a valid quantile and a
    prediction of the target's shape. *)
Lemma pinball_loop_step (target prediction : tensor R)
    (predictions : list (tensor R)) (i : nat) (q : R) (rest : list R)
    (loss : R) :
  valid_quantile q ->
  predictions !! i = Some prediction ->
  shape prediction = shape target ->
  pinball_loop target predictions i (q :: rest) loss
  = pinball_loop target predictions (S i) rest
      (loss + torch_sum
                (mkTensor (dim0 target) (dim1 target) (dim2 target)
                   (fun n h k =>
                      Rmax (q * (entry target n h k - entry prediction n h k))
                        ((q - 1)
                         * (entry target n h k - entry prediction n h k))))
              / INR (dim0 target * dim1 target * dim2 target)).
Proof.
  intros [H0 H1] Hp Hs. simpl.
  rewrite (proj2 (Rlt_b_true 0 q) H0), (proj2 (Rlt_b_true q 1) H1). simpl.
  unfold getitem. rewrite Hp. simpl.
  rewrite (same_shape_eq target prediction) by done. simpl.
  rewrite tzip_same by done. simpl. rewrite tzip_same by reflexivity.
  reflexivity.
Qed.

Lemma pinball_loop_nonneg (target : tensor R) (predictions : list (tensor R)) :
  nonempty target ->
  forall (quantiles : list R) (i : nat) (loss : R),
    Forall valid_quantile quantiles ->
    (forall j, (j < length quantiles)%nat ->
       exists p, predictions !! (i + j)%nat = Some p /\ shape p = shape target) ->
    0 <= loss ->
    exists v, pinball_loop target predictions i quantiles loss = Ok v /\ 0 <= v.
Proof.
  intros (HN & HH & HK).
  induction quantiles as [|q rest IH]; intros i loss Hq Hp Hloss.
  - by exists loss.
  - apply Forall_cons in Hq as [Hq Hrest].
    destruct (Hp 0%nat ltac:(simpl; lia)) as (p & Hpi & Hs).
    rewrite Nat.add_0_r in Hpi.
    rewrite (pinball_loop_step target p predictions i q rest loss Hq Hpi Hs).
    apply IH; [exact Hrest| |].
    + intros j Hj. destruct (Hp (S j) ltac:(simpl; lia)) as (p' & Hp' & Hs').
      exists p'. split; [|exact Hs'].
      by replace (S i + j)%nat with (i + S j)%nat by lia.
    + assert (0 <= torch_sum
                (mkTensor (dim0 target) (dim1 target) (dim2 target)
                   (fun n h k =>
                      Rmax (q * (entry target n h k - entry p n h k))
                        ((q - 1) * (entry target n h k - entry p n h k))))).
      { apply torch_sum_nonneg. intros. by apply pinball_term_nonneg. }
      pose proof (Rinv_0_lt_compat _ (numel_pos _ _ _ HN HH HK)).
      unfold Rdiv. nra.
Qed.

(** X13: for a non-empty target, quantiles strictly between 0 and 1 and one
    prediction of the target's shape per quantile, [pinball_loss] returns a
    loss that is not negative. *)
Theorem pinball_loss_nonneg (target : tensor R)
    (predictions : list (tensor R)) (quantiles : list R) :
  nonempty target ->
  Forall valid_quantile quantiles ->
  (length quantiles <= length predictions)%nat ->
  Forall (fun p => shape p = shape target)
    (take (length quantiles) predictions) ->
  exists v,
    pinball_loss target predictions quantiles true = Ok (Scalar v) /\ 0 <= v.
Proof.
  intros Hne Hq Hlen Hshape. unfold pinball_loss. simpl.
  destruct (pinball_loop_nonneg target predictions Hne quantiles 0 0 Hq)
    as (v & -> & Hv); [|lra|by exists v].
  intros j Hj. simpl.
  destruct (lookup_lt_is_Some_2 predictions j ltac:(lia)) as [p Hp].
  exists p. split; [exact Hp|].
  apply (proj1 (Forall_lookup _ _) Hshape j p).
  by rewrite lookup_take_lt.
Qed.

Lemma pinball_loop_invalid (target : tensor R) (predictions : list (tensor R)) :
  forall (quantiles : list R) (i : nat) (loss : R),
    Exists (fun q => ~ valid_quantile q) quantiles ->
    returned (pinball_loop target predictions i quantiles loss) = false.
Proof.
  induction quantiles as [|q rest IH]; intros i loss Hex.
  - by apply Exists_nil in Hex.
  - simpl.
    destruct (Rlt_b 0 q) eqn:H0; simpl; [|done].
    destruct (Rlt_b q 1) eqn:H1; simpl; [|done].
    apply Exists_cons in Hex as [Hbad|Hex].
    { exfalso. apply Hbad. split; by apply Rlt_b_true. }
    destruct (getitem predictions i) as [p|]; simpl; [|done].
    destruct (same_shape target p); simpl; [|done].
    destruct (tzip Rminus target p) as [errors|]; simpl; [|done].
    destruct (tzip Rmax _ _) as [worst|]; simpl; [|done].
    by apply IH.
Qed.

(** X14: when one of the quantiles is not strictly between 0 and 1,
    [pinball_loss] returns no loss, whatever the other arguments are. *)
Theorem pinball_loss_rejects_quantile (target : tensor R)
    (predictions : list (tensor R)) (quantiles : list R) (total : bool) :
  Exists (fun q => ~ valid_quantile q) quantiles ->
  returned (pinball_loss target predictions quantiles total) = false.
Proof.
  intros Hex. unfold pinball_loss. destruct total; simpl; [|done].
  pose proof (pinball_loop_invalid target predictions quantiles 0 0 Hex) as H.
  by destruct (pinball_loop target predictions 0 quantiles 0).
Qed.

(** X15: [quantile_score] reads the prediction after the last quantile's
    one as the median forecast: with no more predictions than quantiles it
    returns no score. *)
Theorem quantile_score_needs_median (target : tensor R)
    (predictions : list (tensor R)) (quantiles : list R) (total : bool) :
  (length predictions <= length quantiles)%nat ->
  returned (quantile_score target predictions quantiles total) = false.
Proof.
  intros Hlen. unfold quantile_score.
  destruct (pinball_loss target predictions quantiles total) as [loss1|];
    simpl; [|done].
  unfold getitem. by rewrite lookup_ge_None_2.
Qed.

(** X16: the functions without a per-horizon form.  With [total=False],
    [mape], [mase], [mae] and [quantile_score] raise [NotImplementedError]
    on every input; [rae] reads its first prediction before it tests
    [total], so it raises [IndexError] on an empty prediction list and
    [NotImplementedError] otherwise. *)
Theorem no_per_horizon_form (target : tensor R)
    (predictions : list (tensor R)) (quantiles : list R) (freq : nat)
    (insample : option (tensor R)) :
  mape target predictions false = Raise NotImplementedError /\
  mase target predictions freq false insample = Raise NotImplementedError /\
  mae target predictions false = Raise NotImplementedError /\
  quantile_score target predictions quantiles false
  = Raise NotImplementedError /\
  rae target predictions false
  = (if bool_decide (predictions = []) then Raise IndexError
     else Raise NotImplementedError).
Proof.
  repeat split. unfold rae. by destruct predictions.
Qed.

(** ** Absolute errors *)

Lemma mae_value (target prediction : tensor R) (more : list (tensor R)) :
  shape prediction = shape target ->
  mae target (prediction :: more) true
  = Ok (Scalar (torch_sum
                  (mkTensor (dim0 target) (dim1 target) (dim2 target)
                     (fun i h k =>
                        Rabs (entry target i h k - entry prediction i h k)))
                / INR (dim0 target * dim1 target * dim2 target))).
Proof.
  intros Hs. unfold mae. simpl. rewrite tzip_same by done. reflexivity.
Qed.


(** X18: for upper and lower predictions of one non-empty shape, the total
    sharpness is the mean of the upper minus the mean of the lower
    prediction, and it is not negative when no upper prediction lies below
    its lower prediction. *)
Theorem sharpness_mean_width (upper lower : tensor R) :
  shape lower = shape upper ->
  nonempty upper ->
  sharpness [upper; lower] true
  = Ok (Scalar (torch_mean upper - torch_mean lower)) /\
  ((forall i h k, within upper i h k ->
      entry lower i h k <= entry upper i h k) ->
   0 <= torch_mean upper - torch_mean lower).
Proof.
  intros Hs (HN & HH & HK).
  destruct upper as [N H K u], lower as [N' H' K' l].
  pose proof Hs as Hs'. injection Hs' as -> -> ->. simpl in *.
  pose proof (numel_pos _ _ _ HN HH HK) as Hpos.
  pose proof (Rinv_0_lt_compat _ Hpos) as Hinv.
  split.
  - unfold sharpness. simpl. rewrite tzip_same by done. simpl.
    do 2 f_equal. unfold torch_mean. simpl. rewrite torch_sum_minus.
    unfold Rdiv. ring.
  - intros Hle. unfold torch_mean, within in *. simpl in *.
    assert (torch_sum (mkTensor N H K l) <= torch_sum (mkTensor N H K u)).
    { apply torch_sum_le. intros. by apply Hle. }
    unfold Rdiv. nra.
Qed.

(** X19: for a non-empty target without a zero entry, [mape] is 0 for the
    perfect forecast and exactly 100 for the forecast that predicts 0
    everywhere. *)
Theorem mape_reference_values (target : tensor R) :
  nonempty target ->
  (forall i h k, within target i h k -> entry target i h k <> 0) ->
  mape target [target] true = Ok (Scalar 0) /\
  mape target [zero_forecast target] true = Ok (Scalar 100).
Proof.
  intros (HN & HH & HK) Hnz.
  destruct target as [N H K t]. unfold within in Hnz. simpl in *.
  pose proof (numel_pos _ _ _ HN HH HK) as Hpos.
  split.
  - unfold mape. simpl. rewrite tzip_same by done. simpl.
    rewrite tzip_same by done. simpl. do 2 f_equal.
    unfold torch_mean, tmap. cbn [dim0 dim1 dim2 entry].
    rewrite (torch_sum_ext N H K _ (fun _ _ _ => 0)).
    + rewrite torch_sum_const. unfold Rdiv. ring.
    + intros i h k Hi Hh Hk.
      replace ((t i h k - t i h k) / t i h k) with 0
        by (field; apply Hnz; done).
      apply Rabs_R0.
  - unfold mape. simpl. rewrite tzip_same by done. simpl.
    rewrite tzip_same by done. simpl. do 2 f_equal.
    unfold torch_mean, tmap. cbn [dim0 dim1 dim2 entry].
    rewrite (torch_sum_ext N H K _ (fun _ _ _ => 1)).
    + rewrite torch_sum_const. field. lra.
    + intros i h k Hi Hh Hk.
      replace ((t i h k - 0) / t i h k) with 1
        by (field; apply Hnz; done).
      apply Rabs_R1.
Qed.

(** X20: with no in-sample target and a season [freq] shorter than the
    batch, [mase] compares each window from [freq] on with the window
    [freq] places before it: it returns the sum of the absolute forecast
    errors of these windows divided by the sum of their absolute seasonal
    differences (the first [freq] windows enter neither sum), and 0 for the
    perfect forecast. *)
Theorem mase_seasonal_ratio (target prediction : tensor R) (freq : nat) :
  shape prediction = shape target ->
  (freq < dim0 target)%nat ->
  (1 <= dim1 target)%nat ->
  (1 <= dim2 target)%nat ->
  let rest := (dim0 target - freq)%nat in
  let forecast_error :=
    torch_sum (mkTensor rest (dim1 target) (dim2 target)
                 (fun i h k => Rabs (entry target (i + freq) h k
                                     - entry prediction (i + freq) h k))) in
  let seasonal_difference :=
    torch_sum (mkTensor rest (dim1 target) (dim2 target)
                 (fun i h k => Rabs (entry target (i + freq) h k
                                     - entry target i h k))) in
  seasonal_difference <> 0 ->
  mase target [prediction] freq true None
  = Ok (Scalar (forecast_error / seasonal_difference)) /\
  mase target [target] freq true None = Ok (Scalar 0).
Proof.
  intros Hs Hfreq HH HK rest fe sd Hsd.
  destruct target as [N H K t], prediction as [N' H' K' p].
  pose proof Hs as Hs'. injection Hs' as -> -> ->. simpl in *.
  assert (0 < INR (rest * H * K)) as Hpos by (apply numel_pos; lia).
  assert (forall q : nat -> nat -> nat -> R,
            mase (mkTensor N H K t) [mkTensor N H K q] freq true None
            = Ok (Scalar
                    (torch_sum
                       (mkTensor rest H K
                          (fun i h k => Rabs (t (i + freq)%nat h k
                                              - q (i + freq)%nat h k)))
                     / INR (rest * H * K)
                     / (sd / INR (rest * H * K))))) as Hmase.
  { intros q. unfold mase. simpl. rewrite tzip_same by done. simpl.
    rewrite tzip_same by done. simpl. do 2 f_equal.
    unfold torch_mean. simpl. fold rest. do 2 f_equal.
    subst sd. apply torch_sum_ext. intros i h k Hi Hh Hk.
    assert (((i + freq + (N - freq mod N)) mod N)%nat = i) as Hidx.
    { rewrite (Nat.mod_small freq N) by lia.
      replace (i + freq + (N - freq))%nat with (i + 1 * N)%nat by lia.
      rewrite Nat.Div0.mod_add. apply Nat.mod_small. lia. }
    simpl. by rewrite Hidx. }
  split.
  - rewrite Hmase. do 2 f_equal. subst fe. field. split; lra.
  - rewrite Hmase. do 2 f_equal.
    rewrite (torch_sum_ext rest H K _ (fun _ _ _ => 0)).
    + rewrite torch_sum_const. field. split; lra.
    + intros i h k _ _ _.
      replace (t (i + freq)%nat h k - t (i + freq)%nat h k) with 0 by ring.
      apply Rabs_R0.
Qed.

(** ** Mean interval score *)

Lemma Rsum_plus {A} (f g : A -> R) (l : list A) :
  Rsum (map (fun a => f a + g a) l) = Rsum (map f l) + Rsum (map g l).
Proof. unfold Rsum. induction l as [|a l IH]; simpl; [lra | rewrite IH; lra]. Qed.

Lemma Rsum_swap {A B} (f : A -> B -> R) (la : list A) (lb : list B) :
  Rsum (map (fun a => Rsum (map (f a) lb)) la)
  = Rsum (map (fun b => Rsum (map (fun a => f a b) la)) lb).
Proof.
  induction la as [|a la IH]; simpl.
  - unfold Rsum at 1. simpl. symmetry.
    induction lb as [|b lb IHb]; [done|]. unfold Rsum in *. simpl.
    rewrite IHb. lra.
  - unfold Rsum at 1. simpl. fold (Rsum (map (fun a => Rsum (map (f a) lb)) la)).
    rewrite IH. rewrite <- Rsum_plus. apply Rsum_ext. intros b _.
    unfold Rsum. simpl. reflexivity.
Qed.

Lemma torch_sum_plus (N H K : nat) (f g : nat -> nat -> nat -> R) :
  torch_sum (mkTensor N H K (fun i h k => f i h k + g i h k))
  = torch_sum (mkTensor N H K f) + torch_sum (mkTensor N H K g).
Proof.
  rewrite !torch_sum_positions. simpl.
  rewrite <- (Rsum_plus (fun '(i, h, k) => f i h k) (fun '(i, h, k) => g i h k)).
  apply Rsum_ext. by intros [[i h] k] _.
Qed.

Lemma torch_sum_scale (N H K : nat) (c : R) (f : nat -> nat -> nat -> R) :
  torch_sum (mkTensor N H K (fun i h k => c * f i h k))
  = c * torch_sum (mkTensor N H K f).
Proof.
  rewrite !torch_sum_positions. simpl.
  rewrite <- (Rsum_scale c (fun '(i, h, k) => f i h k)).
  apply Rsum_ext. by intros [[i h] k] _.
Qed.

(** Summing the sums of the single horizon steps gives the sum of the
    tensor. *)
Lemma torch_sum_by_step (N H K : nat) (f : nat -> nat -> nat -> R) :
  Rsum (map (fun h => torch_sum (mkTensor N 1 K (fun n _ k => f n h k)))
          (seq 0 H))
  = torch_sum (mkTensor N H K f).
Proof.
  unfold torch_sum, sum_upto. simpl.
  rewrite (Rsum_swap (fun n h => Rsum (map (fun k => f n h k) (seq 0 K)))
             (seq 0 N) (seq 0 H)).
  apply Rsum_ext. intros h _. apply Rsum_ext. intros n _.
  unfold Rsum. simpl. lra.
Qed.

Lemma positive_part_bounds (x : R) :
  0 <= positive_part x /\ x <= positive_part x.
Proof.
  unfold positive_part, Rlt_b. destruct (Rlt_dec 0 x); lra.
Qed.

Lemma positive_part_nonpos (x : R) : x <= 0 -> positive_part x = 0.
Proof. unfold positive_part, Rlt_b. destruct (Rlt_dec 0 x); [lra|done]. Qed.

Lemma interval_score_nonneg (alpha t upper lower : R) :
  0 < alpha <= 2 -> 0 <= interval_score alpha t upper lower.
Proof.
  intros [H0 H2]. unfold interval_score.
  destruct (positive_part_bounds (lower - t)) as [Ha0 Ha].
  destruct (positive_part_bounds (t - upper)) as [Hb0 Hb].
  assert (1 <= 2 / alpha) as Hf.
  { apply Rmult_le_reg_r with alpha; [exact H0|]. field_simplify; lra. }
  nra.
Qed.

Lemma interval_score_inside (alpha t upper lower : R) :
  lower <= t <= upper -> interval_score alpha t upper lower = upper - lower.
Proof.
  intros [Hl Hu]. unfold interval_score.
  rewrite !positive_part_nonpos by lra. ring.
Qed.

Lemma step_slice_ok (t : tensor R) (i : nat) :
  (i < dim1 t)%nat ->
  step_slice t i
  = Ok (mkTensor (dim0 t) 1 (dim2 t) (fun n _ k => entry t n i k)).
Proof.
  intros Hi. unfold step_slice.
  by destruct (Nat.ltb_spec i (dim1 t)); [|lia].
Qed.

Lemma mis_step_value (target upper lower : tensor R) (alpha : R) (i : nat) :
  shape upper = shape target ->
  shape lower = shape target ->
  alpha <> 0 ->
  (i < dim1 target)%nat ->
  mis_step target upper lower alpha i
  = Ok (step_interval_score alpha target upper lower i / INR (dim0 target)).
Proof.
  intros Hu Hl Ha Hi.
  destruct target as [N H K t], upper as [N1 H1 K1 u], lower as [N2 H2 K2 l].
  injection Hu as -> -> ->. injection Hl as -> -> ->. simpl in Hi.
  unfold mis_step. rewrite !step_slice_ok by done. simpl.
  rewrite !tzip_same by done. simpl.
  unfold two_over. destruct (Req_dec_T alpha 0) as [|_]; [done|]. simpl.
  do 2 f_equal. unfold step_interval_score, sum_positive, tmap. simpl.
  rewrite <- !torch_sum_scale, <- !torch_sum_plus.
  apply torch_sum_ext. intros n h k _ _ _. reflexivity.
Qed.

Lemma mis_loop_value (target upper lower : tensor R) (alpha : R)
    (steps : list nat) :
  shape upper = shape target ->
  shape lower = shape target ->
  alpha <> 0 ->
  Forall (fun i => (i < dim1 target)%nat) steps ->
  mis_loop target upper lower alpha steps
  = Ok (map (fun h => step_interval_score alpha target upper lower h
                      / INR (dim0 target)) steps).
Proof.
  intros Hu Hl Ha. induction 1 as [|i rest Hi _ IH]; [done|].
  simpl. rewrite mis_step_value, IH by done. reflexivity.
Qed.

Lemma seq_below (n : nat) : Forall (fun i => (i < n)%nat) (seq 0 n).
Proof. apply Forall_forall. intros i Hi. apply elem_of_seq in Hi. lia. Qed.

Lemma mis_values (target upper lower : tensor R) (alpha : R) :
  shape upper = shape target ->
  shape lower = shape target ->
  alpha <> 0 ->
  mis target [upper; lower] alpha false
  = Ok (Horizon (map (fun h => step_interval_score alpha target upper lower h
                               / INR (dim0 target)) (seq 0 (dim1 target)))) /\
  mis target [upper; lower] alpha true
  = Ok (Total (mean (map (fun h => step_interval_score alpha target upper lower h
                                   / INR (dim0 target))
                       (seq 0 (dim1 target))))).
Proof.
  intros Hu Hl Ha. unfold mis. simpl.
  rewrite (mis_loop_value target upper lower alpha _ Hu Hl Ha (seq_below _)).
  simpl. split; [reflexivity|]. unfold mean.
  by rewrite length_map, length_seq.
Qed.

(** X21: for upper and lower predictions of the target's shape and a
    non-zero [alpha], [mis] with [total=False] returns for each horizon step
    the interval scores of that step (interval width plus [2 / alpha] times
    the distance of the target outside the interval), summed over the batch
    and the target variables and divided by the batch size; with
    [total=True] it returns the mean of these values over the steps. *)
Theorem mis_is_mean_interval_score (target upper lower : tensor R)
    (alpha : R) :
  shape upper = shape target ->
  shape lower = shape target ->
  alpha <> 0 ->
  let per_step :=
    map (fun h => step_interval_score alpha target upper lower h
                  / INR (dim0 target)) (seq 0 (dim1 target)) in
  mis target [upper; lower] alpha false = Ok (Horizon per_step) /\
  mis target [upper; lower] alpha true = Ok (Total (mean per_step)).
Proof. intros Hu Hl Ha per_step. by apply mis_values. Qed.

(** X22: for upper and lower predictions of the target's shape, at least
    one window and one horizon step, and a significance level
    [0 < alpha <= 2], the mean interval score is not negative, in every
    horizon step and in total, even where an upper prediction lies below
    its lower prediction. *)
Theorem mis_nonneg (target upper lower : tensor R) (alpha : R) :
  shape upper = shape target ->
  shape lower = shape target ->
  0 < alpha <= 2 ->
  (1 <= dim0 target)%nat ->
  (1 <= dim1 target)%nat ->
  exists v vs,
    mis target [upper; lower] alpha true = Ok (Total v) /\
    mis target [upper; lower] alpha false = Ok (Horizon vs) /\
    length vs = dim1 target /\
    Forall (fun x => 0 <= x) vs /\
    0 <= v.
Proof.
  intros Hu Hl Halpha HN HH.
  destruct (mis_values target upper lower alpha Hu Hl)
    as [Hfalse Htrue]; [lra|].
  do 2 eexists. split; [exact Htrue|]. split; [exact Hfalse|].
  assert (0 < INR (dim0 target)) as Hpos by (apply lt_0_INR; lia).
  assert (forall h, 0 <= step_interval_score alpha target upper lower h
                         / INR (dim0 target)) as Hstep.
  { intros h. apply Rmult_le_pos; [|left; by apply Rinv_0_lt_compat].
    apply torch_sum_nonneg. intros. by apply interval_score_nonneg. }
  split; [by rewrite length_map, length_seq|]. split.
  - apply Forall_forall. intros x Hx.
    apply list_elem_of_fmap in Hx as (h & -> & _). apply Hstep.
  - assert (seq 0 (dim1 target) <> []) as Hne
      by (destruct (dim1 target); [lia | discriminate]).
    pose proof (mean_bounds (fun h => step_interval_score alpha target upper lower h
                                      / INR (dim0 target))
                  (seq 0 (dim1 target)) 0
                  (Rsum (map (fun h => step_interval_score alpha target upper lower h
                                       / INR (dim0 target))
                           (seq 0 (dim1 target)))
                   + 1) Hne) as Hb.
    apply Hb. intros h Hh. split; [apply Hstep|].
    assert (forall (l : list nat) (x : nat), x ∈ l ->
              step_interval_score alpha target upper lower x / INR (dim0 target)
              <= Rsum (map (fun h => step_interval_score alpha target upper lower h
                                     / INR (dim0 target)) l)) as Hle.
    { induction l as [|a l IH]; intros x Hx; [by apply elem_of_nil in Hx|].
      unfold Rsum. simpl.
      fold (Rsum (map (fun h => step_interval_score alpha target upper lower h
                                / INR (dim0 target)) l)).
      pose proof (Rsum_nonneg (fun h => step_interval_score alpha target upper lower h
                                        / INR (dim0 target)) l
                    (fun a _ => Hstep a)).
      pose proof (Hstep a).
      apply elem_of_cons in Hx as [->|Hx]; [lra|]. specialize (IH x Hx). lra. }
    specialize (Hle _ _ Hh). lra.
Qed.

(** X23: when every target lies within its interval, the penalties vanish
    and the total mean interval score is the total sharpness times the
    number of target variables; for a single target variable the two
    coincide. *)
Theorem mis_inside_is_sharpness (target upper lower : tensor R) (alpha : R) :
  shape upper = shape target ->
  shape lower = shape target ->
  alpha <> 0 ->
  nonempty target ->
  (forall i h k, within target i h k ->
     entry lower i h k <= entry target i h k <= entry upper i h k) ->
  exists s,
    sharpness [upper; lower] true = Ok (Scalar s) /\
    mis target [upper; lower] alpha true
    = Ok (Total (INR (dim2 target) * s)).
Proof.
  intros Hu Hl Ha (HN & HH & HK) Hin.
  destruct (mis_values target upper lower alpha Hu Hl Ha) as [_ ->].
  destruct target as [N H K t], upper as [N1 H1 K1 u], lower as [N2 H2 K2 l].
  injection Hu as -> -> ->. injection Hl as -> -> ->.
  unfold within in Hin. simpl in *.
  eexists. split.
  { unfold sharpness. simpl. rewrite tzip_same by done. reflexivity. }
  do 2 f_equal. unfold mean. rewrite length_map, length_seq.
  unfold reduce, torch_mean. simpl.
  assert (Rsum (map (fun h => step_interval_score alpha (mkTensor N H K t)
                                (mkTensor N H K u) (mkTensor N H K l) h
                              / INR N) (seq 0 H))
          = torch_sum (mkTensor N H K (fun i h k => u i h k - l i h k)) / INR N)
    as ->.
  { rewrite <- (torch_sum_by_step N H K (fun i h k => u i h k - l i h k)).
    unfold Rdiv. rewrite Rmult_comm, <- Rsum_scale.
    apply Rsum_ext. intros h Hh. apply elem_of_seq in Hh.
    rewrite Rmult_comm. f_equal. unfold step_interval_score. simpl.
    apply torch_sum_ext. intros n j k Hn _ Hk.
    apply interval_score_inside. apply Hin; lia. }
  rewrite !mult_INR.
  assert (0 < INR N) by (apply lt_0_INR; lia).
  assert (0 < INR H) by (apply lt_0_INR; lia).
  assert (0 < INR K) by (apply lt_0_INR; lia).
  field. repeat split; lra.
Qed.

(** X24: with [alpha = 0] and at least one horizon step, [mis] raises
    [ZeroDivisionError] in its first loop round. *)
Theorem mis_alpha_zero (target upper lower : tensor R) (total : bool) :
  shape upper = shape target ->
  shape lower = shape target ->
  (1 <= dim1 target)%nat ->
  mis target [upper; lower] 0 total = Raise ZeroDivisionError.
Proof.
  intros Hu Hl HH.
  destruct target as [N H K t], upper as [N1 H1 K1 u], lower as [N2 H2 K2 l].
  injection Hu as -> -> ->. injection Hl as -> -> ->. simpl in HH.
  unfold mis. simpl. destruct H as [|H]; [lia|]. simpl.
  unfold mis_step. rewrite !step_slice_ok by (simpl; lia). simpl.
  rewrite !tzip_same by done. simpl.
  unfold two_over. by destruct (Req_dec_T 0 0).
Qed.

(** ** Coverage loss *)

Lemma count_upto_none (n : nat) (f : nat -> bool) :
  (forall i, (i < n)%nat -> f i = false) -> count_upto n f = 0%nat.
Proof.
  intros Hnone. unfold count_upto.
  assert (forall l : list nat, (forall i, i ∈ l -> f i = false) ->
            filter (fun i => f i = true) l = []) as Hfilter.
  { induction l as [|a l IH]; intros Hl; [done|].
    rewrite filter_cons_False.
    - apply IH. intros i Hi. apply Hl. by constructor.
    - rewrite Hl by constructor. done. }
  rewrite Hfilter; [done|]. intros i Hi. apply Hnone.
  apply elem_of_seq in Hi. lia.
Qed.

Lemma picp_total_value (target upper lower : tensor R) :
  shape upper = shape target ->
  shape lower = shape target ->
  dim2 target = 1%nat ->
  picp target [upper; lower] true
  = Ok (Scalar
          (mean (map (fun h =>
                        100 * INR (count_upto (dim0 target)
                                     (fun i => covered_b (entry target i h 0)
                                                 (entry upper i h 0)
                                                 (entry lower i h 0)))
                        / INR (dim0 target))
                   (seq 0 (dim1 target))))).
Proof.
  intros Hup Hlow HK. unfold picp. simpl.
  rewrite (tzip_same Rgt_b target lower) by done. simpl.
  rewrite (tzip_same Rle_b target upper) by done. simpl.
  rewrite tzip_same by reflexivity. simpl.
  do 2 f_equal. unfold mean, matrix_sum, torch_sum_dim0_bool, tabulate. simpl.
  rewrite HK. simpl. rewrite !map_map, length_map, length_seq. f_equal.
  apply Rsum_ext. intros h _. unfold Rsum. simpl. unfold covered_b. lra.
Qed.

(** X25: [picp_loss] is 1 minus the coverage in percent.  For a target with
    a single target variable, at least one window and one horizon step, and
    predictions of its shape, the total loss lies between -99 and 1; it is
    -99 when every target lies strictly between its bounds and 1 when no
    target is covered. *)
Theorem picp_loss_range (target upper lower : tensor R) :
  shape upper = shape target ->
  shape lower = shape target ->
  dim2 target = 1%nat ->
  (1 <= dim0 target)%nat ->
  (1 <= dim1 target)%nat ->
  exists v,
    picp_loss target [upper; lower] true = Ok (Scalar v) /\
    -99 <= v <= 1 /\
    ((forall i h, (i < dim0 target)%nat -> (h < dim1 target)%nat ->
        entry lower i h 0 < entry target i h 0 < entry upper i h 0) ->
     v = -99) /\
    ((forall i h, (i < dim0 target)%nat -> (h < dim1 target)%nat ->
        ~ covered (entry target i h 0) (entry upper i h 0)
            (entry lower i h 0)) ->
     v = 1).
Proof.
  intros Hup Hlow HK HN HH. unfold picp_loss.
  rewrite (picp_total_value target upper lower Hup Hlow HK). simpl.
  eexists. split; [reflexivity|].
  set (step := fun h : nat =>
         100 * INR (count_upto (dim0 target)
                      (fun i => covered_b (entry target i h 0)
                                  (entry upper i h 0) (entry lower i h 0)))
         / INR (dim0 target)).
  assert (seq 0 (dim1 target) <> []) as Hne
    by (destruct (dim1 target); [lia | discriminate]).
  assert (0 < INR (dim0 target)) as Hpos by (apply lt_0_INR; lia).
  split; [|split].
  - assert (0 <= mean (map step (seq 0 (dim1 target))) <= 100) as Hm; [|lra].
    apply mean_bounds; [exact Hne|]. intros h _. unfold step.
    apply step_coverage_bounds; [exact HN | apply count_upto_le].
  - intros Hall.
    assert (100 <= mean (map step (seq 0 (dim1 target))) <= 100) as Hm; [|lra].
    apply mean_bounds; [exact Hne|]. intros h Hh. unfold step.
    apply elem_of_seq in Hh. rewrite count_upto_all.
    + assert (100 * INR (dim0 target) / INR (dim0 target) = 100) as ->
        by (field; lra). lra.
    + intros i Hi. apply covered_b_spec. unfold covered.
      destruct (Hall i h) as [? ?]; [lia..|]. lra.
  - intros Hnone.
    assert (0 <= mean (map step (seq 0 (dim1 target))) <= 0) as Hm; [|lra].
    apply mean_bounds; [exact Hne|]. intros h Hh. unfold step.
    apply elem_of_seq in Hh.
    assert (count_upto (dim0 target)
              (fun i => covered_b (entry target i h 0) (entry upper i h 0)
                          (entry lower i h 0)) = 0%nat) as ->.
    { apply count_upto_none. intros i Hi.
      destruct (covered_b _ _ _) eqn:Hc; [|done].
      apply covered_b_spec in Hc. by destruct (Hnone i h ltac:(lia) ltac:(lia)). }
    simpl. unfold Rdiv. rewrite Rmult_0_r, Rmult_0_l. lra.
Qed.

(** ** Instances *)

Ltac solve_nonempty := repeat split; simpl; lia.

Lemma residuals_is_mean_difference_witness :
  residuals (full 2 1 1 3) [full 2 1 1 1] true
  = Ok (Scalar (torch_mean (full 2 1 1 3) - torch_mean (full 2 1 1 1))).
Proof.
  apply (residuals_is_mean_difference (full 2 1 1 3) (full 2 1 1 1) []);
    [reflexivity | solve_nonempty].
Defined.

Lemma shape_mismatch_raises_witness :
  residuals (full 2 1 1 0) [full 3 1 1 0] false = Raise ValueError /\
  mse (full 2 1 1 0) [full 3 1 1 0] false = Raise ValueError /\
  rmse (full 2 1 1 0) [full 3 1 1 0] false = Raise ValueError.
Proof.
  apply (shape_mismatch_raises (full 2 1 1 0) (full 3 1 1 0) [] false).
  discriminate.
Defined.

Lemma two_predictions_required_witness :
  nll_gauss (full 1 1 1 0) [full 1 1 1 0] true = Raise AssertionError /\
  crps_gaussian (fun _ => 0) (full 1 1 1 0) [full 1 1 1 0] true
  = Raise AssertionError /\
  sharpness [full 1 1 1 0] true = Raise AssertionError /\
  picp (full 1 1 1 0) [full 1 1 1 0] true = Raise AssertionError /\
  picp_loss (full 1 1 1 0) [full 1 1 1 0] true = Raise AssertionError /\
  mis (full 1 1 1 0) [full 1 1 1 0] (1 / 20) true = Raise AssertionError.
Proof.
  apply (two_predictions_required (fun _ => 0) (full 1 1 1 0) [full 1 1 1 0]).
  simpl. lia.
Defined.

Lemma mse_nonneg_symmetric_definite_witness :
  exists v,
    mse (full 2 1 1 3) [full 2 1 1 1] true = Ok (Scalar v) /\
    mse (full 2 1 1 1) [full 2 1 1 3] true = Ok (Scalar v) /\
    rmse (full 2 1 1 3) [full 2 1 1 1] true = Ok (Scalar (sqrt v)) /\
    0 <= v /\
    (v = 0 <-> forall i h k, within (full 2 1 1 3) i h k ->
                             entry (full 2 1 1 1) i h k
                             = entry (full 2 1 1 3) i h k).
Proof.
  apply (mse_nonneg_symmetric_definite (full 2 1 1 3) (full 2 1 1 1));
    [reflexivity | solve_nonempty].
Defined.

Lemma pinball_loss_nonneg_witness :
  exists v,
    pinball_loss (full 2 1 1 3) [full 2 1 1 1; full 2 1 1 5]
      [1 / 10; 9 / 10] true = Ok (Scalar v) /\ 0 <= v.
Proof.
  apply (pinball_loss_nonneg (full 2 1 1 3) [full 2 1 1 1; full 2 1 1 5]
           [1 / 10; 9 / 10]).
  - solve_nonempty.
  - repeat constructor; lra.
  - simpl. lia.
  - simpl. repeat constructor.
Defined.

Lemma pinball_loss_rejects_quantile_witness :
  returned (pinball_loss (full 2 1 1 3) [full 2 1 1 1] [2] true) = false.
Proof.
  apply (pinball_loss_rejects_quantile (full 2 1 1 3) [full 2 1 1 1] [2] true).
  apply Exists_cons_hd. intros [_ H]. lra.
Defined.

Lemma quantile_score_needs_median_witness :
  returned (quantile_score (full 2 1 1 3) [full 2 1 1 1; full 2 1 1 5]
              [1 / 10; 9 / 10] true) = false.
Proof.
  apply (quantile_score_needs_median (full 2 1 1 3)
           [full 2 1 1 1; full 2 1 1 5] [1 / 10; 9 / 10] true).
  simpl. lia.
Defined.


Lemma sharpness_mean_width_witness :
  sharpness [full 2 1 1 5; full 2 1 1 1] true
  = Ok (Scalar (torch_mean (full 2 1 1 5) - torch_mean (full 2 1 1 1))) /\
  ((forall i h k, within (full 2 1 1 5) i h k ->
      entry (full 2 1 1 1) i h k <= entry (full 2 1 1 5) i h k) ->
   0 <= torch_mean (full 2 1 1 5) - torch_mean (full 2 1 1 1)).
Proof.
  apply (sharpness_mean_width (full 2 1 1 5) (full 2 1 1 1));
    [reflexivity | solve_nonempty].
Defined.

Lemma mape_reference_values_witness :
  mape (full 2 1 1 3) [full 2 1 1 3] true = Ok (Scalar 0) /\
  mape (full 2 1 1 3) [zero_forecast (full 2 1 1 3)] true = Ok (Scalar 100).
Proof.
  apply (mape_reference_values (full 2 1 1 3)); [solve_nonempty|].
  intros i h k _. simpl. lra.
Defined.

Lemma mase_seasonal_ratio_witness :
  mase (column3 1 2 4) [column3 1 2 4] 1 true None = Ok (Scalar 0).
Proof.
  apply (mase_seasonal_ratio (column3 1 2 4) (column3 1 2 5) 1);
    [reflexivity | simpl; lia | simpl; lia | simpl; lia |].
  unfold torch_sum, sum_upto, Rsum. simpl.
  pose proof (Rabs_pos (4 - 2)).
  assert (Rabs (2 - 1) = 1) as -> by (rewrite Rabs_right; lra).
  lra.
Defined.

Lemma mis_is_mean_interval_score_witness :
  mis (full 2 1 1 0) [full 2 1 1 1; full 2 1 1 (-1)] (1 / 20) false
  = Ok (Horizon
          (map (fun h =>
                  step_interval_score (1 / 20) (full 2 1 1 0) (full 2 1 1 1)
                    (full 2 1 1 (-1)) h / INR 2) (seq 0 1))) /\
  mis (full 2 1 1 0) [full 2 1 1 1; full 2 1 1 (-1)] (1 / 20) true
  = Ok (Total
          (mean (map (fun h =>
                        step_interval_score (1 / 20) (full 2 1 1 0)
                          (full 2 1 1 1) (full 2 1 1 (-1)) h / INR 2)
                   (seq 0 1)))).
Proof.
  apply (mis_is_mean_interval_score (full 2 1 1 0) (full 2 1 1 1)
           (full 2 1 1 (-1)) (1 / 20)); [reflexivity | reflexivity | lra].
Defined.

Lemma mis_nonneg_witness :
  exists v vs,
    mis (full 2 1 1 0) [full 2 1 1 (-1); full 2 1 1 1] (1 / 20) true
    = Ok (Total v) /\
    mis (full 2 1 1 0) [full 2 1 1 (-1); full 2 1 1 1] (1 / 20) false
    = Ok (Horizon vs) /\
    length vs = 1%nat /\
    Forall (fun x => 0 <= x) vs /\
    0 <= v.
Proof.
  apply (mis_nonneg (full 2 1 1 0) (full 2 1 1 (-1)) (full 2 1 1 1) (1 / 20));
    [reflexivity | reflexivity | lra | simpl; lia | simpl; lia].
Defined.

Lemma mis_inside_is_sharpness_witness :
  exists s,
    sharpness [full 2 1 1 1; full 2 1 1 (-1)] true = Ok (Scalar s) /\
    mis (full 2 1 1 0) [full 2 1 1 1; full 2 1 1 (-1)] (1 / 20) true
    = Ok (Total (INR 1 * s)).
Proof.
  apply (mis_inside_is_sharpness (full 2 1 1 0) (full 2 1 1 1)
           (full 2 1 1 (-1)) (1 / 20));
    [reflexivity | reflexivity | lra | solve_nonempty |].
  intros i h k _. simpl. lra.
Defined.

Lemma mis_alpha_zero_witness :
  mis (full 2 1 1 0) [full 2 1 1 1; full 2 1 1 (-1)] 0 true
  = Raise ZeroDivisionError.
Proof.
  apply (mis_alpha_zero (full 2 1 1 0) (full 2 1 1 1) (full 2 1 1 (-1)) true);
    [reflexivity | reflexivity | simpl; lia].
Defined.

Lemma picp_loss_range_witness :
  exists v,
    picp_loss (full 2 3 1 0) [full 2 3 1 1; full 2 3 1 (-1)] true
    = Ok (Scalar v) /\
    -99 <= v <= 1 /\
    ((forall i h, (i < 2)%nat -> (h < 3)%nat -> -1 < 0 < 1) -> v = -99) /\
    ((forall i h, (i < 2)%nat -> (h < 3)%nat -> ~ covered 0 1 (-1)) -> v = 1).
Proof.
  apply (picp_loss_range (full 2 3 1 0) (full 2 3 1 1) (full 2 3 1 (-1)));
    [reflexivity | reflexivity | reflexivity | simpl; lia | simpl; lia].
Defined.

End MetricsMoreFacts.
(** * Further properties of the end of [main] *)

Module RunControllerMore.
Import Py Train RunController RunControllerFacts RunConfig.

Section Tail.
Context {Net Log : Type}.
Implicit Types (r : run Net Log).

Lemma overwrite_config_log ci search overwrite r :
  log_df (overwrite_config ci search overwrite r).1 = log_df r.
Proof.
  unfold overwrite_config. destruct (par_get _ _) as [v|]; [|done].
  destruct (truthy v && negb ci); [|done].
  destruct overwrite; try done. by destruct search.
Qed.

Lemma turn_off_tuning_log ci turn_off r :
  log_df (turn_off_tuning ci turn_off r).1 = log_df r.
Proof.
  unfold turn_off_tuning. destruct (par_get _ _) as [v|]; [|done].
  destruct (truthy v && negb ci); [|done]. by destruct turn_off.
Qed.

Lemma improvement_decision_log ci search overwrite turn_off
    (net : Net) loss new_score r :
  log_df (improvement_decision ci search overwrite turn_off net loss
            new_score r).1 = log_df r.
Proof.
  unfold improvement_decision.
  destruct (exceeds _ _) as [[|]|]; try done.
  match goal with
  | |- context [overwrite_config ?c ?s ?o ?x] =>
      pose proof (overwrite_config_log c s o x) as H1;
      destruct (overwrite_config c s o x) as [r2 [u|e]]
  end; simpl in *; [|done].
  by rewrite turn_off_tuning_log.
Qed.

(** X26: the log is written in every run: the log returned by [train] when
    training returned, the log created before training otherwise.  When the
    training phase raises, neither a model nor a configuration is written;
    [KeyboardInterrupt] then ends [main] normally and every other exception
    leaves [main] after the log is written. *)
Theorem log_written_in_every_run (ci : bool) (search : option study)
    (overwrite turn_off : answer) (PAR0 : gmap string pyval)
    (log0 : option Log) (training : result (Net * option Log * xloss * Q)) :
  let run := main_after_training ci search overwrite turn_off PAR0 log0
               training in
  log_file run.1
  = match training with
    | Ok (_, log, _, _) => log
    | Raise _ => log0
    end /\
  (forall e, training = Raise e ->
     run = (mkArtifacts None None log0,
            match e with
            | KeyboardInterrupt => Ok tt
            | _ => Raise e
            end)).
Proof.
  intros run. subst run. unfold main_after_training. split.
  - destruct training as [[[[net log] loss] new_score]|e]; [|done].
    match goal with
    | |- context [improvement_decision ?c ?s ?o ?t ?a ?l ?ns ?x] =>
        pose proof (improvement_decision_log c s o t a l ns x) as Hlog;
        destruct (improvement_decision c s o t a l ns x) as [r ended]
    end. simpl in *. exact Hlog.
  - intros e ->. simpl. by destruct e.
Qed.

(** X27: an improvement is kept when the user interrupts the run at a
    prompt.  With tuning switched on and outside continuous integration, an
    interrupt at the first prompt, or at the second one after the answer
    "no" to the first, still ends [main] normally with the new model, the
    configuration with the new best score and loss, and the log written. *)
Theorem interrupt_at_prompt_keeps_improvement (search : option study)
    (overwrite turn_off : answer) (PAR0 : gmap string pyval)
    (log0 log : option Log) (net : Net) (loss : xloss) (new_score : Q)
    (prev : xloss) (exploration : pyval) :
  previous_best PAR0 = Some prev ->
  strictly_lower new_score prev ->
  PAR0 !! "exploration" = Some exploration ->
  truthy exploration = true ->
  overwrite = Interrupt \/ (overwrite = No /\ turn_off = Interrupt) ->
  main_after_training false search overwrite turn_off PAR0 log0
    (Ok (net, log, loss, new_score))
  = (mkArtifacts (Some net) (Some (improved_config PAR0 loss new_score)) log,
     Ok tt).
Proof.
  intros Hprev Hlow Hexp Htruthy Hint.
  unfold main_after_training, improvement_decision. simpl.
  rewrite (proj2 (exceeds_spec PAR0 new_score)) by (by exists prev).
  unfold overwrite_config, turn_off_tuning, par_get. simpl.
  rewrite !lookup_insert_ne, Hexp by done. rewrite Htruthy. simpl.
  destruct Hint as [->|[-> ->]]; simpl.
  - reflexivity.
  - rewrite !lookup_insert_ne, Hexp by done. rewrite Htruthy. reflexivity.
Qed.

(** X28: in continuous integration no prompt is shown, and an improvement
    writes the new model and a configuration that records the new score as
    [best_score] and the minimum validation loss as [best_loss], holds none
    of the helper entries [hyper_params], [trial_id] and [n_trials], and
    agrees with the old configuration on every other key. *)
Theorem ci_run_saves_updated_config (search : option study)
    (overwrite turn_off : answer) (PAR0 : gmap string pyval)
    (log0 log : option Log) (net : Net) (loss : xloss) (new_score : Q)
    (prev : xloss) :
  previous_best PAR0 = Some prev ->
  strictly_lower new_score prev ->
  let out := (main_after_training true search overwrite turn_off PAR0 log0
                (Ok (net, log, loss, new_score))).1 in
  let cfg := improved_config PAR0 loss new_score in
  out = mkArtifacts (Some net) (Some cfg) log /\
  cfg !! "best_score" = Some (PNum (Finite new_score)) /\
  cfg !! "best_loss" = Some (PNum loss) /\
  cfg !! "hyper_params" = None /\
  cfg !! "trial_id" = None /\
  cfg !! "n_trials" = None /\
  (forall key, key ∉ ["best_score"; "best_loss"; "hyper_params"; "trial_id";
                      "n_trials"] ->
               cfg !! key = PAR0 !! key).
Proof.
  intros Hprev Hlow out cfg. subst out cfg. split.
  - unfold main_after_training, improvement_decision. simpl.
    rewrite (proj2 (exceeds_spec PAR0 new_score)) by (by exists prev).
    unfold overwrite_config, turn_off_tuning, par_get. simpl.
    rewrite !lookup_insert_ne by done.
    destruct (PAR0 !! "exploration") as [v|]; simpl; [|done].
    rewrite andb_false_r. simpl.
    rewrite !lookup_insert_ne by done.
    destruct (PAR0 !! "exploration") as [v'|]; simpl; [|done].
    by rewrite andb_false_r.
  - unfold improved_config. repeat split.
    + by simplify_map_eq.
    + by simplify_map_eq.
    + by simplify_map_eq.
    + by simplify_map_eq.
    + by simplify_map_eq.
    + intros key Hkey.
      rewrite !not_elem_of_cons in Hkey.
      destruct Hkey as (? & ? & ? & ? & ? & _).
      by rewrite !lookup_delete_ne, !lookup_insert_ne by done.
Qed.

End Tail.

Lemma interrupt_at_prompt_keeps_improvement_witness :
  main_after_training (Log := unit) false None Interrupt No
    (<["best_score" := PNum (Finite 5)]> (<["exploration" := PBool true]> ∅))
    None (Ok (7%nat, None, Finite 3, 4%Q))
  = (mkArtifacts (Some 7%nat)
       (Some (improved_config
                (<["best_score" := PNum (Finite 5)]>
                   (<["exploration" := PBool true]> ∅))
                (Finite 3) 4%Q))
       None,
     Ok tt).
Proof.
  apply (interrupt_at_prompt_keeps_improvement (Log := unit) None Interrupt No
           _ None None 7%nat (Finite 3) 4%Q (Finite 5) (PBool true)).
  - reflexivity.
  - reflexivity.
  - reflexivity.
  - reflexivity.
  - by left.
Defined.

Lemma ci_run_saves_updated_config_witness :
  (main_after_training (Log := unit) true None No No
     (<["best_score" := PNone]> (<["trial_id" := PStr "main_run"]> ∅))
     None (Ok (7%nat, None, Finite 3, 4%Q))).1
  = mkArtifacts (Some 7%nat)
      (Some (improved_config
               (<["best_score" := PNone]> (<["trial_id" := PStr "main_run"]> ∅))
               (Finite 3) 4%Q))
      None.
Proof.
  apply (ci_run_saves_updated_config (Log := unit) None No No
           (<["best_score" := PNone]> (<["trial_id" := PStr "main_run"]> ∅))
           None None 7%nat (Finite 3) 4%Q Infinite).
  - reflexivity.
  - exact I.
Defined.

End RunControllerMore.
(** * Properties of [main] of [src/train.py] *)

Module HandlerRunFacts.
Import Py HandlerRun.

(** X29: in a run of [main] in which the data is prepared and the model is
    fitted, [select_model] is called exactly when [load_model] returned a
    model, and the fitted model is saved by [save_current_model] whether or
    not an older model exists: always after a missing or unreadable older
    model ([FileNotFoundError] or any other exception but
    [KeyboardInterrupt]), after a selection exactly when [select_model]
    returned, and not when [load_model] was interrupted.  With a log,
    [end_logging] is the last call of every such run. *)
Theorem fitted_model_is_saved {Model : Type} (w : collaborators Model)
    (exploration_path log_df_present : bool) :
  fitted w exploration_path ->
  let calls := (main w exploration_path log_df_present).1 in
  bool_decide (SelectModel ∈ calls)
  = match outcome w LoadModel, loaded w with
    | Ok _, Some _ => true
    | _, _ => false
    end /\
  bool_decide (SaveCurrentModel ∈ calls)
  = match outcome w LoadModel with
    | Raise KeyboardInterrupt => false
    | Raise _ => true
    | Ok _ => match loaded w with
              | Some _ => returned (outcome w SelectModel)
              | None => true
              end
    end /\
  (log_df_present = true -> last calls = Some EndLogging).
Proof.
  intros (Hprep & Htune & Hmake & Hfit) calls. subst calls.
  unfold main, try_body, invoke, load_reference, traced_bind, traced_ret.
  rewrite Hprep, Hmake, Hfit.
  destruct exploration_path; [rewrite (Htune eq_refl)|];
    (destruct (outcome w LoadModel) as [[]|e];
     [|destruct e];
     destruct (loaded w) as [m|];
     destruct (outcome w SelectModel) as [[]|e1];
     destruct (outcome w SaveCurrentModel) as [[]|e2];
     destruct (outcome w GetConfig) as [[]|e3];
     destruct log_df_present;
     repeat split; try reflexivity; discriminate).
Qed.

Lemma fitted_model_is_saved_witness :
  bool_decide (SelectModel ∈ (main (smooth_run (Raise FileNotFoundError) None)
                                false true).1) = false /\
  bool_decide (SaveCurrentModel ∈
                 (main (smooth_run (Raise FileNotFoundError) None)
                    false true).1) = true /\
  (true = true ->
   last (main (smooth_run (Raise FileNotFoundError) None) false true).1
   = Some EndLogging).
Proof.
  apply (fitted_model_is_saved (smooth_run (Raise FileNotFoundError) None)
           false true).
  repeat split.
Defined.

End HandlerRunFacts.
(** * Further properties of the training loop *)

Module TrainMore.
Import Py Train TrainLosses.

Section Losses.
Context `{L : Learner}.

Lemma validate_fold (net : Net) (n : nat) (batches : list Batch) (acc : Q) :
  (foldl (fun validation_loss b =>
            validation_loss + per_batch (eval_loss net b) n) acc batches
   == acc + total_loss (eval_loss net) batches / inject_Z (Z.of_nat n))%Q.
Proof.
  revert acc. induction batches as [|b batches IH]; intros acc; simpl.
  - unfold Qdiv. ring.
  - rewrite IH. unfold per_batch, Qdiv. ring.
Qed.

(** X30: the validation loss of an epoch is the arithmetic mean of the
    losses of the validation batches, and 0 when the validation loader
    yields no batch. *)
Theorem validation_loss_is_mean (net : Net) (batches : list Batch) :
  (validate batches net
   == total_loss (eval_loss net) batches
      / inject_Z (Z.of_nat (length batches)))%Q /\
  validate [] net = 0%Q.
Proof.
  split; [|reflexivity]. unfold validate. rewrite validate_fold. ring.
Qed.

End Losses.
End TrainMore.
